(** * python-clean-basics: the user manager of [main.py]

    A shallow embedding of [User] and [UserManager] (load, save, add, get,
    list, soft delete) and the properties of its specification.

    [self.users] holds whatever [json.load] returned, so the store is a
    Python value, not a typed list: the operations are embedded with
    Python's behaviour on every JSON value, raising and catching included. *)

From Stdlib Require Import ZArith String Ascii Lia.
From Stdlib Require DecimalString.
From Stdlib Require Import Floats.PrimFloat Floats.SpecFloat Floats.FloatOps.
From stdpp Require Import base option list strings gmap.

#[local] Set Warnings "-register-all".
Open Scope string_scope.
Open Scope list_scope.
Open Scope Z_scope.

(** ** Python values

    The values [json.load] can build, which are also the only values the
    manager ever stores: [None], [bool], [int], [float], [str], [list] and
    [dict] with string keys.  A [str] is the list of its characters; a
    [dict] is a finite map, equal to another when they hold the same items
    (Python's [==] on dicts does not look at insertion order either). *)
Inductive pyval : Type :=
| PNone
| PBool (b : bool)
| PInt (n : Z)
| PFloat (f : float)
| PStr (s : string)
| PList (l : list pyval)
| PDict (d : gmap string pyval).

(** The exceptions the code can meet.  [FileNotFoundError] and
    [PermissionError] are [OSError]s ([IOError] is another name of
    [OSError]); [JSONDecodeError] and [UnicodeDecodeError] are
    [ValueError]s; all of them are [Exception]s. *)
Inductive exn : Type :=
| FileNotFoundError
| PermissionError
| OSError
| JSONDecodeError
| UnicodeDecodeError
| TypeError
| AttributeError
| ValueError.

(** A computation that returns or raises. *)
Inductive result (A : Type) : Type :=
| Ok (a : A)
| Raise (e : exn).
Arguments Ok {A} a.
Arguments Raise {A} e.

Class Monad (m : Type -> Type) : Type := {
  ret : forall {A : Type}, A -> m A;
  bind : forall {A B : Type}, m A -> (A -> m B) -> m B
}.

Declare Scope py_scope.
Delimit Scope py_scope with py.
Notation "x <- c1 ;; c2" := (bind c1 (fun x => c2))
  (at level 100, c1 at next level, right associativity) : py_scope.
Notation "c1 ;; c2" := (bind c1 (fun _ => c2))
  (at level 100, right associativity) : py_scope.
Open Scope py_scope.

#[global] Instance result_monad : Monad result := {
  ret := fun A a => Ok a;
  bind := fun A B c k => match c with Ok a => k a | Raise e => Raise e end
}.

(** [[f(x) for x in xs]]: the first exception ends the comprehension. *)
Fixpoint map_result {A B : Type} (f : A -> result B) (xs : list A) : result (list B) :=
  match xs with
  | [] => Ok []
  | x :: rest => y <- f x ;; ys <- map_result f rest ;; ret (y :: ys)
  end.

(** [[x for x in xs if p(x)]]. *)
Fixpoint filter_result {A : Type} (p : A -> result bool) (xs : list A) : result (list A) :=
  match xs with
  | [] => Ok []
  | x :: rest =>
      keep <- p x ;; ys <- filter_result p rest ;;
      ret (if keep : bool then x :: ys else ys)
  end.

(** *** Numbers *)

(** A [bool], [int] or [float] as the number it is in arithmetic and
    comparisons ([True] is 1, [False] is 0). *)
Inductive number : Type :=
| NInt (n : Z)
| NFloat (f : float).

Definition as_number (v : pyval) : option number :=
  match v with
  | PBool b => Some (NInt (Z.b2z b))
  | PInt n => Some (NInt n)
  | PFloat f => Some (NFloat f)
  | _ => None
  end.

Definition of_number (x : number) : pyval :=
  match x with
  | NInt n => PInt n
  | NFloat f => PFloat f
  end.

(** Python compares a [float] with an [int] exactly, not after rounding the
    [int]: a finite float is [±m * 2^e]; [None] for a NaN, which is
    neither below, equal to nor above anything. *)
Definition float_cmp_Z (f : float) (z : Z) : option comparison :=
  match Prim2SF f with
  | S754_nan => None
  | S754_infinity neg => Some (if neg then Lt else Gt)
  | S754_zero _ => Some (0 ?= z)
  | S754_finite neg m e =>
      let num := if neg then Z.neg m else Z.pos m in
      if 0 <=? e then Some (num * 2 ^ e ?= z)
      else Some (num ?= z * 2 ^ (- e))
  end.

(** [a > b] on numbers. *)
Definition num_gt (a b : number) : bool :=
  match a, b with
  | NInt x, NInt y => y <? x
  | NFloat x, NFloat y => PrimFloat.ltb y x
  | NFloat x, NInt y =>
      match float_cmp_Z x y with Some Gt => true | _ => false end
  | NInt x, NFloat y =>
      match float_cmp_Z y x with Some Lt => true | _ => false end
  end.

(** [a + 1]: the [int] 1 becomes the float 1.0 beside a float. *)
Definition num_succ (a : number) : number :=
  match a with
  | NInt x => NInt (x + 1)
  | NFloat x => NFloat (x + 1)%float
  end.

(** [max(xs)] of a non-empty list [first :: rest]: the running maximum
    is replaced only by an item strictly greater than it. *)
Definition num_max (first : number) (rest : list number) : number :=
  fold_left (fun best item => if num_gt item best then item else best) rest first.

(** *** Operations on values *)

(** [bool(v)]: the truth value of [v] in a condition. *)
Definition truthy (v : pyval) : bool :=
  match v with
  | PNone => false
  | PBool b => b
  | PInt n => negb (n =? 0)
  | PFloat f => negb (PrimFloat.eqb f 0%float)
  | PStr s => negb (String.eqb s "")
  | PList l => match l with [] => false | _ => true end
  | PDict d => negb (bool_decide (d = ∅))
  end.

(** [v == s] for a [str] [s]: only an equal [str] is equal to it. *)
Definition py_eq_str (v : pyval) (s : string) : bool :=
  match v with
  | PStr t => String.eqb t s
  | _ => false
  end.

(** [v == n] for an [int] [n]: a number is compared by value ([True == 1],
    [2.0 == 2]); anything else is different. *)
Definition py_eq_int (v : pyval) (n : Z) : bool :=
  match v with
  | PBool b => Z.b2z b =? n
  | PInt k => k =? n
  | PFloat f => match float_cmp_Z f n with Some Eq => true | _ => false end
  | _ => false
  end.

(** [c in s] for a one-character string [c]. *)
Fixpoint str_contains (c : ascii) (s : string) : bool :=
  match s with
  | EmptyString => false
  | String a rest => Ascii.eqb a c || str_contains c rest
  end.

(** [sys.int_max_str_digits], which the program leaves at its default:
    CPython does not write an [int] of more decimal digits than this as a
    [str]. *)
Definition int_max_str_digits : Z := 4300.
#[global] Opaque int_max_str_digits.

(** [str(n)] of an [int] [n], which is also what [{n}] puts into an
    f-string: the decimal digits, with [-] before them for a negative
    number; [ValueError] when [n] has more than [int_max_str_digits]
    digits, that is from [10 ^ 4300] on. *)
Definition int_to_str (n : Z) : result string :=
  if 10 ^ int_max_str_digits <=? Z.abs n then Raise ValueError
  else Ok (DecimalString.NilZero.string_of_int (Z.to_int n)).
Arguments int_to_str : simpl never.

(** [len(v)]. *)
Definition py_len (v : pyval) : result nat :=
  match v with
  | PStr s => Ok (String.length s)
  | PList l => Ok (List.length l)
  | PDict d => Ok (size d)
  | _ => Raise TypeError
  end.

Fixpoint chars (s : string) : list pyval :=
  match s with
  | EmptyString => []
  | String a rest => PStr (String a EmptyString) :: chars rest
  end.

(** The items [for x in v] goes through: the elements of a list, the keys
    of a dict, the characters of a str; other values are not iterable. *)
Definition py_iter (v : pyval) : result (list pyval) :=
  match v with
  | PList l => Ok l
  | PDict d => Ok (PStr <$> (map_to_list d).*1)
  | PStr s => Ok (chars s)
  | _ => Raise TypeError
  end.

(** [v.get(key, default)]: only a dict has [get]. *)
Definition py_get (v : pyval) (key : string) (default : pyval) : result pyval :=
  match v with
  | PDict d => Ok (from_option (fun x => x) default (d !! key))
  | _ => Raise AttributeError
  end.

(** [v.append(x)]: only a list has [append]. *)
Definition py_append (v x : pyval) : result pyval :=
  match v with
  | PList l => Ok (PList (l ++ [x]))
  | _ => Raise AttributeError
  end.

(** [v[i][key] = x] for the [i]-th item [user] of the loop over [v], with
    [user] a dict: the loop got [user] out of a list (the items of a dict
    or str are strings, never dicts), and the dict at place [i] of that
    list is updated where it is. *)
Definition py_setitem_at (v : pyval) (i : nat) (key : string) (x : pyval) : result pyval :=
  match v with
  | PList l =>
      match l !! i with
      | Some (PDict d) => Ok (PList (<[i := PDict (<[key := x]> d)]> l))
      | _ => Raise TypeError
      end
  | _ => Raise TypeError
  end.

(** [max([...], default=0) + 1] over the list [ids].  On numbers this is
    Python's [max] followed by [+ 1].  A list holding anything that is not
    a number makes the expression raise [TypeError]: [>] between a number
    and a str, list, dict or None raises it, and so does [+ 1] on whichever
    of these a [max] among themselves returns. *)
Definition next_id (ids : list pyval) : result pyval :=
  match mapM as_number ids with
  | None => Raise TypeError
  | Some [] => Ok (of_number (num_succ (NInt 0)))
  | Some (first :: rest) => Ok (of_number (num_succ (num_max first rest)))
  end.

(** ** The data model *)

(** [@dataclass class User]; [active] defaults to [True].  A dataclass
    does not check its type hints: [id] holds whatever number
    [max(...) + 1] gave, an [int] on a store whose ids are [int]s. *)
Record User : Type := mkUser {
  User_id : pyval;
  User_name : string;
  User_email : string;
  User_active : bool
}.

Definition to_dict (self : User) : pyval :=
  PDict (<["id" := User_id self]>
        (<["name" := PStr (User_name self)]>
        (<["email" := PStr (User_email self)]>
        (<["active" := PBool (User_active self)]> ∅)))).

(** ** The [json] library and the files

    [json.dump] and [json.load] belong to Python, not to this program: they
    are a parameter of the development, and so is the kind of text a file
    holds.  [json_dump obj indent] is the text [json.dump(obj, file,
    indent=indent)] writes; [json_load] parses a file's text, or raises
    ([JSONDecodeError] on text that is not JSON, another exception when the
    text cannot even be read, as [UnicodeDecodeError] on bytes that are no
    text). *)
Class Json : Type := {
  text : Type;
  json_dump : pyval -> nat -> text;
  json_load : text -> result pyval
}.

(** The instance the worked examples run on: a file is described by what
    [json.load] makes of it. *)
Inductive document : Type :=
| Parses (v : pyval)
| Malformed
| Undecodable.

Definition document_json : Json := {|
  text := document;
  json_dump := fun obj _ => Parses obj;
  json_load := fun t =>
    match t with
    | Parses v => Ok v
    | Malformed => Raise JSONDecodeError
    | Undecodable => Raise UnicodeDecodeError
    end
|}.

Section Manager.
Context {J : Json}.

(** What a path names: a regular file with its text, or something that
    cannot be opened (a directory, a file the process has no right to). *)
Inductive node : Type :=
| File (content : text)
| NoAccess.

(** The file system: the paths that exist. *)
Abbreviation filesystem := (gmap string node).

(** What the operating system does with one attempt to write a file, for
    causes the file system above does not show (a full disk, a read-only
    volume, a missing directory): the write goes through, [open] raises, or
    [json.dump] raises after the file was emptied and [written] went in. *)
Inductive write_outcome : Type :=
| WriteOk
| OpenFails
| DumpFails (written : text).

(** [open(path, 'r')] and the read of the whole file. *)
Definition read_file (fs : filesystem) (path : string) : result text :=
  match fs !! path with
  | None => Raise FileNotFoundError
  | Some NoAccess => Raise PermissionError
  | Some (File content) => Ok content
  end.

(** [with open(path, 'w') as file: <write content>]: the file system
    afterwards, and how the block ended. *)
Definition write_file (w : write_outcome) (fs : filesystem) (path : string) (content : text)
  : result unit * filesystem :=
  match fs !! path with
  | Some NoAccess => (Raise PermissionError, fs)
  | _ =>
      match w with
      | WriteOk => (Ok tt, <[path := File content]> fs)
      | OpenFails => (Raise OSError, fs)
      | DumpFails written => (Raise OSError, <[path := File written]> fs)
      end
  end.

(** [class UserManager]: its two attributes. *)
Record UserManager : Type := mkUserManager {
  filename : string;
  users : pyval
}.

(** What a method can change: the manager and the files. *)
Definition world : Type := UserManager * filesystem.

(** A method body: it reads and changes the world, and returns or raises;
    an exception leaves the world as it was when it was raised. *)
Definition M (A : Type) : Type := world -> result A * world.

#[global] Instance M_monad : Monad M := {
  ret := fun A a s => (Ok a, s);
  bind := fun A B c k s =>
    match c s with
    | (Ok a, s') => k a s'
    | (Raise e, s') => (Raise e, s')
    end
}.

(** A pure computation inside a method. *)
Definition lift {A : Type} (c : result A) : M A := fun s => (c, s).

(** [try: body except ...: handler(e)]. *)
Definition try_except {A : Type} (body : M A) (handler : exn -> M A) : M A :=
  fun s =>
    match body s with
    | (Ok a, s') => (Ok a, s')
    | (Raise e, s') => handler e s'
    end.

Definition get_self : M UserManager := fun s => (Ok (fst s), s).

(** [self.users = v], also for a change made inside the object
    [self.users] names. *)
Definition set_users (v : pyval) : M unit :=
  fun s => (Ok tt, (mkUserManager (filename (fst s)) v, snd s)).

Definition open_write (w : write_outcome) (path : string) (content : text) : M unit :=
  fun s => let (r, fs) := write_file w (snd s) path content in (r, (fst s, fs)).

(** [_load_users]: the three handlers all give the empty list. *)
Definition _load_users (fs : filesystem) (path : string) : pyval :=
  match file <- read_file fs path ;; json_load file with
  | Ok data => data
  | Raise FileNotFoundError => PList []
  | Raise JSONDecodeError => PList []
  | Raise _ => PList []
  end.

(** [__init__]: [self.users] is what [_load_users] returns; the log line
    that follows takes [len(self.users)], outside any [try]. *)
Definition __init__ (fs : filesystem) (path : string) : result UserManager :=
  let self := mkUserManager path (_load_users fs path) in
  _ <- py_len (users self) ;;
  ret self.

(** [_save_users]: the whole of [self.users] goes to [self.filename];
    the log line with [len(self.users)] is inside the [try].  Both
    handlers ([IOError], then [Exception]) return [False]. *)
Definition _save_users (w : write_outcome) : M bool :=
  try_except
    (self <- get_self ;;
     open_write w (filename self) (json_dump (users self) 2) ;;
     _ <- lift (py_len (users self)) ;;
     ret true)
    (fun e => match e with
              | FileNotFoundError | PermissionError | OSError => ret false
              | _ => ret false
              end).

(** The loop of [add_user] over the items of [self.users]: [true] when it
    reaches [return None] (an item's email is [email]), [false] when it
    runs to its end. *)
Fixpoint email_taken (email : string) (items : list pyval) : result bool :=
  match items with
  | [] => Ok false
  | user :: rest =>
      e <- py_get user "email" PNone ;;
      if py_eq_str e email then ret true else email_taken email rest
  end.

Definition add_user (w : write_outcome) (name email : string) : M (option User) :=
  try_except
    (if negb (truthy (PStr name)) || negb (truthy (PStr email)) then ret None
     else if negb (str_contains "@" email) then ret None
     else
       self <- get_self ;;
       items <- lift (py_iter (users self)) ;;
       taken <- lift (email_taken email items) ;;
       if taken : bool then ret None
       else
         ids <- lift (map_result (fun user => py_get user "id" (PInt 0)) items) ;;
         new_id <- lift (next_id ids) ;;
         let user := mkUser new_id name email true in
         appended <- lift (py_append (users self) (to_dict user)) ;;
         set_users appended ;;
         success <- _save_users w ;;
         if success : bool then ret (Some user) else ret None)
    (fun _ => ret None).

(** The loops of [get_user] and [delete_user]: the place and the item of
    the first [user] with [user.get("id") == user_id], counting from [i]. *)
Fixpoint find_id (user_id : Z) (i : nat) (items : list pyval) : result (option (nat * pyval)) :=
  match items with
  | [] => Ok None
  | user :: rest =>
      v <- py_get user "id" PNone ;;
      if py_eq_int v user_id then ret (Some (i, user))
      else find_id user_id (S i) rest
  end.

(** [get_user].  Its two log lines write [user_id] into an f-string: the
    warning after the loop, inside the [try], and the error line of the
    handler, from which an exception leaves the method. *)
Definition get_user (user_id : Z) : M (option pyval) :=
  try_except
    (self <- get_self ;;
     items <- lift (py_iter (users self)) ;;
     found <- lift (find_id user_id 0 items) ;;
     match found with
     | Some (_, user) => ret (Some user)
     | None =>
         _ <- lift (int_to_str user_id) ;;
         ret None
     end)
    (fun _ =>
       _ <- lift (int_to_str user_id) ;;
       ret None).

Definition list_users (active_only : bool) : M pyval :=
  try_except
    (self <- get_self ;;
     if active_only then
       items <- lift (py_iter (users self)) ;;
       kept <- lift (filter_result
                 (fun user => a <- py_get user "active" (PBool true) ;; ret (truthy a))
                 items) ;;
       ret (PList kept)
     else ret (users self))
    (fun _ => ret (PList [])).

(** [delete_user].  Its three log lines write [user_id] into an
    f-string: after a save that returned [True], after a loop that found
    nothing, both inside the [try], and in the handler, from which an
    exception leaves the method. *)
Definition delete_user (w : write_outcome) (user_id : Z) : M bool :=
  try_except
    (self <- get_self ;;
     items <- lift (py_iter (users self)) ;;
     found <- lift (find_id user_id 0 items) ;;
     match found with
     | Some (i, _) =>
         changed <- lift (py_setitem_at (users self) i "active" (PBool false)) ;;
         set_users changed ;;
         success <- _save_users w ;;
         if success : bool then
           _ <- lift (int_to_str user_id) ;;
           ret true
         else ret false
     | None =>
         _ <- lift (int_to_str user_id) ;;
         ret false
     end)
    (fun _ =>
       _ <- lift (int_to_str user_id) ;;
       ret false).

(** One call of the interface, with what the operating system does if the
    call writes the file. *)
Inductive call : Type :=
| CallAdd (name email : string) (w : write_outcome)
| CallGet (user_id : Z)
| CallList (active_only : bool)
| CallDelete (user_id : Z) (w : write_outcome).

Definition perform (c : call) (s : world) : world :=
  match c with
  | CallAdd name email w => snd (add_user w name email s)
  | CallGet user_id => snd (get_user user_id s)
  | CallList active_only => snd (list_users active_only s)
  | CallDelete user_id w => snd (delete_user w user_id s)
  end.

(** A session: the calls one after the other. *)
Definition run (calls : list call) (s : world) : world :=
  fold_left (fun s c => perform c s) calls s.

End Manager.

Abbreviation filesystem := (gmap string node).

(** ** The store as the specification reads it *)

(** A field of a record. *)
Definition record_field (key : string) (r : pyval) : option pyval :=
  match r with
  | PDict d => d !! key
  | _ => None
  end.

Definition record_id (r : pyval) : option Z :=
  match record_field "id" r with
  | Some (PInt n) => Some n
  | _ => None
  end.

Definition record_email (r : pyval) : option string :=
  match record_field "email" r with
  | Some (PStr s) => Some s
  | _ => None
  end.

(** The record's [active] field is [false]. *)
Definition inactive (r : pyval) : bool :=
  match record_field "active" r with
  | Some (PBool false) => true
  | _ => false
  end.

(** A user record as the file format has it: an object whose [id] is an
    integer, whose [name] and [email] are strings, and whose [active], when
    it is there, is a boolean. *)
Definition user_record (r : pyval) : bool :=
  match record_field "id" r, record_field "name" r, record_field "email" r with
  | Some (PInt _), Some (PStr _), Some (PStr _) =>
      match record_field "active" r with
      | None | Some (PBool _) => true
      | _ => false
      end
  | _, _, _ => false
  end.

(** The store [v] is the sequence [l] of user records. *)
Definition store_of (v : pyval) (l : list pyval) : Prop :=
  v = PList l ∧ Forall (fun r => user_record r = true) l.

(** The store [v] is a sequence of user records with pairwise distinct
    ids. *)
Definition distinct_ids (v : pyval) : Prop :=
  ∃ l, store_of v l ∧ NoDup (omap record_id l).

(** [max(xs, default=default)] on integers. *)
Definition max_default (default : Z) (xs : list Z) : Z :=
  match xs with
  | [] => default
  | x :: rest => fold_left Z.max rest x
  end.

(** The record [add_user] builds for a store whose records have the
    integer ids [ids]. *)
Definition new_user (ids : list Z) (name email : string) : User :=
  mkUser (PInt (max_default 0 ids + 1)) name email true.

(** The record [r] after a soft delete. *)
Definition deactivated (r : pyval) : pyval :=
  match r with
  | PDict d => PDict (<["active" := PBool false]> d)
  | _ => r
  end.

(** [m] is the greatest of [xs]. *)
Definition is_max (m : Z) (xs : list Z) : Prop :=
  m ∈ xs ∧ ∀ x, x ∈ xs → x ≤ m.

(** The record at place [i] of the store [v], when [v] is a list that
    long. *)
Definition record_at (v : pyval) (i : nat) : option pyval :=
  match v with
  | PList l => l !! i
  | _ => None
  end.

(** The manager after the in-memory change to [store], before the save. *)
Definition with_users (self : UserManager) (store : pyval) : UserManager :=
  mkUserManager (filename self) store.


(** *** Stores over a session *)

(** [l'] continues [l]: it is at least as long, and every record of [l]
    is still at its place, as it was or with [active] set to [False]. *)
Definition continues (l l' : list pyval) : Prop :=
  (length l ≤ length l')%nat ∧
  ∀ i r, l !! i = Some r → l' !! i = Some r ∨ l' !! i = Some (deactivated r).

(** A record as [add_user] writes it and [delete_user] may leave it: the
    four keys of [to_dict], a positive id, a non-empty name and a non-empty
    email with an ['@']. *)
Definition valid_user (r : pyval) : Prop :=
  ∃ n name email active,
    r = to_dict (mkUser (PInt n) name email active) ∧
    0 < n ∧ name ≠ "" ∧ email ≠ "" ∧ str_contains "@" email = true.

(** The ids 1, 2, ..., [n]. *)
Definition ids_upto (n : nat) : list Z := Z.of_nat <$> seq 1 n.

(** A store built through the interface: a list of valid users whose ids
    are 1, 2, ... in the order of the list and whose emails are pairwise
    distinct. *)
Definition built (v : pyval) : Prop :=
  ∃ l, v = PList l ∧ Forall valid_user l ∧
       omap record_id l = ids_upto (length l) ∧ NoDup (omap record_email l).

(** *** Worked values *)

Definition ann : User := mkUser (PInt 1) "Ann" "ann@x.com" true.
Definition bo : User := mkUser (PInt 2) "Bo" "bo@x.com" true.

(** Bo's record after a soft delete. *)
Definition bo_deleted : pyval :=
  PDict (<["id" := PInt 2]>
        (<["name" := PStr "Bo"]>
        (<["email" := PStr "bo@x.com"]>
        (<["active" := PBool false]> ∅)))).

(** A record written without the [active] key. *)
Definition cy_unflagged : pyval :=
  PDict (<["id" := PInt 3]>
        (<["name" := PStr "Cy"]>
        (<["email" := PStr "cy@x.com"]> ∅))).

(** A JSON array that is no sequence of user records. *)
Definition stray : pyval :=
  PList [PInt 7; PDict (<["id" := PStr "x"]> ∅); PNone].

(** A JSON object with the list of users under a key. *)
Definition wrapped : pyval := PDict (<["users" := PList []]> ∅).



(** A manager of [users.json] holding [store], and no file yet. *)
Definition fresh (store : pyval) : @world document_json :=
  (mkUserManager "users.json" store, ∅).

(** A file system whose [users.json] holds [content]. *)
Definition only_file (content : document) : gmap string (@node document_json) :=
  <["users.json" := @File document_json content]> ∅.

(** A session that tries to bring Bo back: add the same email again,
    delete the record again, add someone else, read. *)
Definition session : list (@call document_json) :=
  [CallAdd "Bo" "bo@x.com" WriteOk; CallDelete 2 WriteOk;
   CallAdd "Cy" "cy@x.com" OpenFails; CallGet 2; CallList true].

(** ** Properties *)

Section Properties.
Context {J : Json}.
Implicit Types (s : world) (self : UserManager) (fs : filesystem).
Implicit Types (l items : list pyval) (r v : pyval) (w : write_outcome).

(** *** Saving and loading *)

(** [_save_users] by cases: the write, then the length for the log line. *)
Lemma save_users_eq w self fs :
  _save_users w (self, fs) =
  match write_file w fs (filename self) (json_dump (users self) 2) with
  | (Ok _, fs') =>
      (Ok (match py_len (users self) with Ok _ => true | Raise _ => false end), (self, fs'))
  | (Raise _, fs') => (Ok false, (self, fs'))
  end.
Proof.
  unfold _save_users, try_except, open_write, lift, get_self; cbn.
  destruct (write_file w fs (filename self) (json_dump (users self) 2)) as [[[]|e] fs']; cbn.
  - destruct (py_len (users self)) as [n|e]; [reflexivity | destruct e; reflexivity].
  - destruct e; reflexivity.
Qed.

(** It returns a boolean and leaves the manager alone. *)
Lemma save_users_returns w self fs :
  ∃ b fs', _save_users w (self, fs) = (Ok b, (self, fs')).
Proof.
  rewrite save_users_eq.
  destruct (write_file _ _ _ _) as [[[]|e] fs']; eauto.
Qed.

Lemma save_users_manager w s : fst (snd (_save_users w s)) = fst s.
Proof.
  destruct s as [self fs].
  destruct (save_users_returns w self fs) as (b & fs' & ->). reflexivity.
Qed.


(** *** User records *)

Lemma user_record_inv r :
  user_record r = true →
  ∃ d n name email,
    r = PDict d ∧ d !! "id" = Some (PInt n) ∧ d !! "name" = Some (PStr name) ∧
    d !! "email" = Some (PStr email) ∧
    (d !! "active" = None ∨ ∃ b, d !! "active" = Some (PBool b)).
Proof.
  unfold user_record. destruct r as [| | | | | |d]; cbn; try discriminate.
  destruct (d !! "id") as [[]|] eqn:Hid; try discriminate.
  destruct (d !! "name") as [[]|] eqn:Hname; try discriminate.
  destruct (d !! "email") as [[]|] eqn:Hemail; try discriminate.
  destruct (d !! "active") as [[]|] eqn:Hactive; try discriminate; intros _;
    eexists _, _, _, _; repeat split; eauto.
Qed.

Lemma record_ids_length l :
  Forall (fun r => user_record r = true) l → length (omap record_id l) = length l.
Proof.
  induction 1 as [|r l Hr _ IH]; [reflexivity|].
  apply user_record_inv in Hr as (d & n & ? & ? & -> & Hid & _).
  cbn. unfold record_id at 1; cbn. rewrite Hid. cbn. by rewrite IH.
Qed.

(** What [to_dict] builds is a user record with the user's id. *)
Lemma to_dict_record u n :
  User_id u = PInt n → user_record (to_dict u) = true ∧ record_id (to_dict u) = Some n.
Proof.
  destruct u as [uid name email active]; cbn. intros ->. split; reflexivity.
Qed.

(** A soft delete keeps a record a user record, with its id. *)
Lemma deactivated_record r :
  user_record r = true →
  user_record (deactivated r) = true ∧ record_id (deactivated r) = record_id r.
Proof.
  intros (d & n & nm & em & -> & Hid & Hname & Hemail & _)%user_record_inv.
  unfold user_record, record_id; cbn.
  rewrite !lookup_insert_ne by done. rewrite lookup_insert_eq, Hid, Hname, Hemail. done.
Qed.

(** Deleting a deleted record changes nothing. *)
Lemma inactive_deactivated r : inactive r = true → deactivated r = r.
Proof.
  unfold inactive. destruct r as [| | | | | |d]; cbn; try discriminate.
  destruct (d !! "active") as [[| [] | | | | |]|] eqn:Hd; try discriminate.
  intros _. f_equal. by apply insert_id.
Qed.

Lemma record_ids_insert l i r r' :
  l !! i = Some r → record_id r' = record_id r →
  omap record_id (<[i := r']> l) = omap record_id l.
Proof.
  revert i. induction l as [|x l IH]; intros [|i] Hi Heq; try done; cbn in *.
  - injection Hi as ->. by rewrite Heq.
  - destruct (record_id x); [f_equal|]; by apply IH.
Qed.

(** *** The loops *)

(** Over user records none of which has the email, the duplicate check
    runs to its end. *)
Lemma email_taken_fresh email l :
  Forall (fun r => user_record r = true) l →
  Forall (fun r => record_email r ≠ Some email) l →
  email_taken email l = Ok false.
Proof.
  induction 1 as [|r l Hr _ IH]; intros Hne; [reflexivity|].
  apply Forall_cons in Hne as [Hr' Hl].
  apply user_record_inv in Hr as (d & n & nm & em & -> & _ & _ & Hem & _).
  cbn. rewrite Hem; cbn.
  unfold record_email in Hr'; cbn in Hr'; rewrite Hem in Hr'.
  destruct (String.eqb_spec em email) as [->|_]; [congruence|]. auto.
Qed.

(** Whatever the items are, the check does not run to its end past a
    record with the email: it returns at it, returns before it, or raises
    before it. *)
Lemma email_taken_dup email items :
  Exists (fun r => record_email r = Some email) items →
  email_taken email items ≠ Ok false.
Proof.
  induction items as [|r items IH]; intros Hex; [by apply Exists_nil in Hex|].
  cbn. destruct r as [| | | | | |d]; cbn; try discriminate.
  apply Exists_cons in Hex as [Hr|Hex].
  - unfold record_email in Hr; cbn in Hr.
    destruct (d !! "email") as [[]|]; try discriminate.
    injection Hr as ->. cbn. rewrite String.eqb_refl. discriminate.
  - destruct (py_eq_str _ email); [discriminate | auto].
Qed.

(** The ids the comprehension of [add_user] collects from user records. *)
Lemma collect_ids l :
  Forall (fun r => user_record r = true) l →
  map_result (fun user => py_get user "id" (PInt 0)) l = Ok (PInt <$> omap record_id l).
Proof.
  induction 1 as [|r l Hr _ IH]; [reflexivity|].
  apply user_record_inv in Hr as (d & n & nm & em & -> & Hid & _).
  cbn. rewrite IH. unfold record_id; cbn. rewrite Hid. reflexivity.
Qed.

(** What the id loop finds is a dict of the list, at the place it says. *)
Lemma find_id_found user_id k items i r :
  find_id user_id k items = Ok (Some (i, r)) →
  ∃ j d, i = (k + j)%nat ∧ items !! j = Some r ∧ r = PDict d.
Proof.
  revert k. induction items as [|x items IH]; intros k; cbn; [discriminate|].
  destruct x as [| | | | | |d]; cbn; try discriminate.
  destruct (py_eq_int _ user_id).
  - intros [= <- <-]. exists 0%nat, d. split; [lia | done].
  - intros (j & d' & -> & Hj & ->)%IH. exists (S j), d'. split; [lia | done].
Qed.

(** Over user records it finds the first one with the id. *)
Lemma find_id_first user_id k l i r :
  Forall (fun r => user_record r = true) l →
  l !! i = Some r → record_id r = Some user_id →
  (∀ j r', (j < i)%nat → l !! j = Some r' → record_id r' ≠ Some user_id) →
  find_id user_id k l = Ok (Some ((k + i)%nat, r)).
Proof.
  intros Hrec. revert k i. induction Hrec as [|x l Hx _ IH]; intros k i Hi Hid Hfirst.
  { by rewrite lookup_nil in Hi. }
  apply user_record_inv in Hx as (d & n & nm & em & -> & Hdid & _).
  cbn. rewrite Hdid; cbn.
  destruct i as [|i].
  - injection Hi as <-. unfold record_id in Hid; cbn in Hid. rewrite Hdid in Hid.
    injection Hid as ->. rewrite Z.eqb_refl. cbn. do 3 f_equal. lia.
  - assert (n ≠ user_id) as Hn.
    { intros ->. apply (Hfirst 0%nat (PDict d)); [lia | done |].
      unfold record_id; cbn. by rewrite Hdid. }
    apply Z.eqb_neq in Hn. rewrite Hn.
    rewrite (IH (S k) i); [do 3 f_equal; lia | done | done |].
    intros j r' Hj Hr'. apply (Hfirst (S j)); [lia | done].
Qed.

Lemma find_id_absent user_id k l :
  Forall (fun r => user_record r = true) l →
  Forall (fun r => record_id r ≠ Some user_id) l →
  find_id user_id k l = Ok None.
Proof.
  intros Hrec. revert k. induction Hrec as [|x l Hx _ IH]; intros k Hno; [reflexivity|].
  apply Forall_cons in Hno as [Hx' Hno].
  apply user_record_inv in Hx as (d & n & nm & em & -> & Hdid & _).
  cbn. rewrite Hdid; cbn.
  unfold record_id in Hx'; cbn in Hx'. rewrite Hdid in Hx'.
  destruct (Z.eqb_spec n user_id) as [->|_]; [done | by apply IH].
Qed.

(** The filter of [list_users] over user records. *)
Lemma filter_active_records l :
  Forall (fun r => user_record r = true) l →
  filter_result (fun user => a <- py_get user "active" (PBool true) ;; ret (truthy a)) l
  = Ok (List.filter (fun r => negb (inactive r)) l).
Proof.
  induction 1 as [|r l Hr _ IH]; [reflexivity|].
  apply user_record_inv in Hr as (d & n & nm & em & -> & _ & _ & _ & Hact).
  cbn in IH |- *. rewrite IH. unfold inactive; cbn.
  destruct Hact as [->|[[] ->]]; reflexivity.
Qed.


(** *** The next id *)

Lemma num_max_ints x rest :
  num_max (NInt x) (NInt <$> rest) = NInt (fold_left Z.max rest x).
Proof.
  unfold num_max. revert x. induction rest as [|y rest IH]; intros x; [reflexivity|].
  cbn. rewrite <- IH. f_equal.
  destruct (Z.ltb_spec x y); f_equal; lia.
Qed.

Lemma as_number_ints ids : mapM as_number (PInt <$> ids) = Some (NInt <$> ids).
Proof.
  induction ids as [|x ids IH]; [reflexivity|].
  cbn. rewrite IH. reflexivity.
Qed.

(** On integer ids, [max(ids, default=0) + 1] is what it says. *)
Lemma next_id_ints ids : next_id (PInt <$> ids) = Ok (PInt (max_default 0 ids + 1)).
Proof.
  unfold next_id. rewrite as_number_ints.
  destruct ids as [|x rest]; [reflexivity|].
  cbn [fmap list_fmap]. rewrite num_max_ints. reflexivity.
Qed.

Lemma fold_max_spec rest x :
  let m := fold_left Z.max rest x in
  x ≤ m ∧ (∀ y, y ∈ rest → y ≤ m) ∧ (m = x ∨ m ∈ rest).
Proof.
  revert x. induction rest as [|y rest IH]; intros x; cbn.
  - split; [lia|]. split; [|by left]. intros y Hy. by apply elem_of_nil in Hy.
  - destruct (IH (Z.max x y)) as (Hge & Hall & Hin).
    split; [lia|]. split.
    + intros z [->|Hz]%elem_of_cons; [lia | by apply Hall].
    + destruct Hin as [Hin|Hin]; [|right; by right].
      rewrite Hin.
      destruct (Z.max_spec x y) as [[_ Hm]|[_ Hm]]; rewrite Hm.
      * right. by left.
      * by left.
Qed.

Lemma max_default_is_max default xs :
  xs ≠ [] → is_max (max_default default xs) xs.
Proof.
  destruct xs as [|x rest]; [done|]. intros _. unfold max_default.
  destruct (fold_max_spec rest x) as (Hge & Hall & Hin). split.
  - destruct Hin as [Hin|Hin]; [rewrite Hin; by left | by right].
  - intros y [->|Hy]%elem_of_cons; [done | by apply Hall].
Qed.

Lemma max_default_fresh ids : max_default 0 ids + 1 ∉ ids.
Proof.
  destruct ids as [|x rest]; [apply not_elem_of_nil|].
  intros Hin. destruct (max_default_is_max 0 (x :: rest)) as [_ Hmax]; [done|].
  apply Hmax in Hin. lia.
Qed.

(** *** The methods, by cases *)

(** An [int] below the limit has its [str]; from the limit on,
    [ValueError]. *)
Lemma int_to_str_small n :
  Z.abs n < 10 ^ int_max_str_digits → ∃ str, int_to_str n = Ok str.
Proof.
  intros Hn. unfold int_to_str.
  destruct (Z.leb_spec (10 ^ int_max_str_digits) (Z.abs n)); [lia | eauto].
Qed.

Lemma int_to_str_huge n :
  10 ^ int_max_str_digits ≤ Z.abs n → int_to_str n = Raise ValueError.
Proof.
  intros Hn. unfold int_to_str.
  destruct (Z.leb_spec (10 ^ int_max_str_digits) (Z.abs n)); [done | lia].
Qed.

(** Whether it returns or raises, [get_user] changes nothing. *)
Lemma get_user_pure user_id s : snd (get_user user_id s) = s.
Proof.
  destruct s as [self fs].
  unfold get_user, try_except, lift, get_self; cbn.
  destruct (py_iter (users self)) as [items|e]; cbn;
    [|by destruct (int_to_str user_id)].
  destruct (find_id user_id 0 items) as [[[i r]|]|e]; cbn; [done| |];
    by destruct (int_to_str user_id).
Qed.

Lemma list_users_pure active_only s : snd (list_users active_only s) = s.
Proof.
  destruct s as [self fs].
  unfold list_users, try_except, lift, get_self; cbn.
  destruct active_only; cbn; [|done].
  destruct (py_iter (users self)) as [items|e]; cbn; [|done].
  match goal with
  | |- context [filter_result ?p items] => destruct (filter_result p items) as [kept|e]
  end; done.
Qed.

(** A valid name and a new email, on a sequence of user records: the
    record is appended, the store is saved, and the user is returned when
    the save says [True]. *)
Lemma add_user_appends w name email self fs l :
  store_of (users self) l →
  name ≠ "" → email ≠ "" → str_contains "@" email = true →
  Forall (fun r => record_email r ≠ Some email) l →
  let user := new_user (omap record_id l) name email in
  let self' := with_users self (PList (l ++ [to_dict user])) in
  ∃ (b : bool) fs',
    _save_users w (self', fs) = (Ok b, (self', fs')) ∧
    add_user w name email (self, fs) =
      (Ok (if b then Some user else None), (self', fs')).
Proof.
  intros [Hl Hrec] Hname Hemail Hat Hfresh user self'.
  destruct (save_users_returns w self' fs) as (b & fs' & Hsave).
  exists b, fs'. split; [done|].
  unfold add_user, try_except, lift, get_self, set_users; cbn.
  destruct (String.eqb_spec name "") as [|_]; [done|].
  destruct (String.eqb_spec email "") as [|_]; [done|].
  rewrite Hat. cbn. rewrite Hl. cbn.
  rewrite (email_taken_fresh email l Hrec Hfresh). cbn.
  rewrite (collect_ids l Hrec). cbn. rewrite next_id_ints. cbn.
  unfold self', with_users, user, new_user in Hsave |- *. rewrite Hsave.
  destruct b; reflexivity.
Qed.

(** What a call of [add_user] can do to any world: nothing, or append one
    record to the list and save. *)
Lemma add_user_cases w name email self fs :
  add_user w name email (self, fs) = (Ok None, (self, fs)) ∨
  ∃ l ids new_id,
    users self = PList l ∧
    map_result (fun user => py_get user "id" (PInt 0)) l = Ok ids ∧
    next_id ids = Ok new_id ∧
    let user := mkUser new_id name email true in
    let self' := with_users self (PList (l ++ [to_dict user])) in
    ∃ (b : bool) fs',
      add_user w name email (self, fs) = (Ok (if b then Some user else None), (self', fs')).
Proof.
  unfold add_user, try_except, lift, get_self, set_users; cbn.
  destruct (negb (negb (String.eqb name "")) || negb (negb (String.eqb email "")));
    [by left|].
  destruct (negb (str_contains "@" email)); [by left|]. cbn.
  destruct (py_iter (users self)) as [items|e] eqn:Hiter; cbn; [|by left].
  destruct (email_taken email items) as [[]|e]; cbn; [by left| |by left].
  match goal with
  | |- context [map_result ?f items] =>
      destruct (map_result f items) as [ids|e] eqn:Hids
  end; cbn; [|by left].
  destruct (next_id ids) as [new_id|e] eqn:Hnew; cbn; [|by left].
  destruct (users self) as [| | | | |l|d] eqn:Hl; cbn; try by left.
  injection Hiter as <-.
  right. exists l, ids, new_id. repeat split; try done.
  destruct (save_users_returns w
    {| filename := filename self;
       users := PList (l ++ [to_dict (mkUser new_id name email true)]) |} fs)
    as (b & fs' & ->).
  exists b, fs'. by destruct b.
Qed.

(** What a call of [delete_user] can do to any world: nothing but its
    log line, which decides between [False] and an exception; or set
    [active] to [False] in one dict of the list and save, with a log line
    after a save that returned [True]. *)
Lemma delete_user_cases w user_id self fs :
  delete_user w user_id (self, fs) =
    (match int_to_str user_id with Ok _ => Ok false | Raise e => Raise e end, (self, fs)) ∨
  ∃ l i d (b : bool) fs',
    users self = PList l ∧ l !! i = Some (PDict d) ∧
    let self' := with_users self (PList (<[i := deactivated (PDict d)]> l)) in
    _save_users w (self', fs) = (Ok b, (self', fs')) ∧
    delete_user w user_id (self, fs) =
      (if b then match int_to_str user_id with Ok _ => Ok true | Raise e => Raise e end
       else Ok false,
       (self', fs')).
Proof.
  unfold delete_user, try_except, lift, get_self, set_users; cbn.
  destruct (py_iter (users self)) as [items|e] eqn:Hiter; cbn;
    [|left; by destruct (int_to_str user_id)].
  destruct (find_id user_id 0 items) as [[[i r]|]|e] eqn:Hfind; cbn;
    [|left; by destruct (int_to_str user_id)..].
  destruct (users self) as [| | | | |l|d] eqn:Hl; cbn;
    try (left; by destruct (int_to_str user_id)).
  injection Hiter as <-.
  apply find_id_found in Hfind as (j & d & -> & Hj & ->). cbn. rewrite Hj.
  right.
  destruct (save_users_returns w
    {| filename := filename self;
       users := PList (<[j := PDict (<["active" := PBool false]> d)]> l) |} fs)
    as (b & fs' & Hsave).
  exists l, j, d, b, fs'. split; [done|]. split; [done|]. unfold with_users. cbn.
  split; [done|]. rewrite Hsave.
  destruct b; cbn; [by destruct (int_to_str user_id) | done].
Qed.

(** The same on a sequence of user records, at the first record with the
    id. *)
Lemma delete_user_found w user_id self fs l i r :
  store_of (users self) l →
  l !! i = Some r → record_id r = Some user_id →
  (∀ j r', (j < i)%nat → l !! j = Some r' → record_id r' ≠ Some user_id) →
  let self' := with_users self (PList (<[i := deactivated r]> l)) in
  ∃ (b : bool) fs',
    _save_users w (self', fs) = (Ok b, (self', fs')) ∧
    delete_user w user_id (self, fs) =
      (if b then match int_to_str user_id with Ok _ => Ok true | Raise e => Raise e end
       else Ok false,
       (self', fs')).
Proof.
  intros [Hl Hrec] Hi Hid Hfirst self'.
  destruct (save_users_returns w self' fs) as (b & fs' & Hsave).
  exists b, fs'. split; [done|].
  unfold delete_user, try_except, lift, get_self, set_users; cbn.
  rewrite Hl; cbn.
  rewrite (find_id_first user_id 0 l i r Hrec Hi Hid Hfirst); cbn.
  rewrite Hi.
  rewrite Forall_lookup in Hrec. apply Hrec in Hi as Hr.
  apply user_record_inv in Hr as (d & _ & _ & _ & -> & _). cbn.
  unfold self', with_users in Hsave |- *. cbn in Hsave. rewrite Hsave.
  destruct b; cbn; [by destruct (int_to_str user_id) | done].
Qed.

(** On a sequence of user records, [add_user] leaves the list as it is or
    appends the record with the next id. *)
Lemma add_user_store_step w name email self fs l :
  store_of (users self) l →
  let after := users (fst (snd (add_user w name email (self, fs)))) in
  after = PList l ∨
  after = PList (l ++ [to_dict (new_user (omap record_id l) name email)]).
Proof.
  intros [Hl Hrec] after. subst after.
  destruct (add_user_cases w name email self fs)
    as [->|(l0 & ids & new_id & Hl0 & Hids & Hnew & b & fs' & ->)]; [by left|].
  right. cbn. rewrite Hl in Hl0. injection Hl0 as <-.
  rewrite (collect_ids l Hrec) in Hids. injection Hids as <-.
  rewrite next_id_ints in Hnew. injection Hnew as <-. reflexivity.
Qed.

(** *** Distinct ids, step by step *)

Lemma add_user_distinct w name email s :
  distinct_ids (users (fst s)) →
  distinct_ids (users (fst (snd (add_user w name email s)))).
Proof.
  destruct s as [self fs]. cbn [fst]. intros (l & Hstore & Hnodup).
  destruct (add_user_store_step w name email self fs l Hstore) as [->| ->].
  { exists l. split; [|done]. split; [done|]. apply Hstore. }
  destruct (to_dict_record (new_user (omap record_id l) name email)
              (max_default 0 (omap record_id l) + 1) eq_refl) as [Hrec Hid].
  exists (l ++ [to_dict (new_user (omap record_id l) name email)]). split.
  - split; [done|]. apply Forall_app. split; [apply Hstore|]. by apply Forall_singleton.
  - rewrite omap_app. cbn [omap list_omap]. rewrite Hid.
    apply NoDup_app. split; [done|]. split; [|apply NoDup_singleton].
    intros x Hx ->%list_elem_of_singleton. by apply max_default_fresh in Hx.
Qed.

Lemma delete_user_distinct w user_id s :
  distinct_ids (users (fst s)) →
  distinct_ids (users (fst (snd (delete_user w user_id s)))).
Proof.
  destruct s as [self fs]. cbn [fst]. intros (l & [Hl Hrec] & Hnodup).
  destruct (delete_user_cases w user_id self fs)
    as [->|(l0 & i & d & b & fs' & Hl0 & Hi & _ & ->)].
  { by exists l. }
  unfold with_users. cbn [fst snd users].
  rewrite Hl in Hl0. injection Hl0 as <-.
  assert (user_record (PDict d) = true) as Hr.
  { rewrite Forall_lookup in Hrec. by eapply Hrec. }
  destruct (deactivated_record _ Hr) as [Hr' Hid].
  exists (<[i := deactivated (PDict d)]> l). split.
  - split; [done|]. by apply Forall_insert.
  - by rewrite (record_ids_insert l i (PDict d)).
Qed.

Lemma perform_distinct c s :
  distinct_ids (users (fst s)) → distinct_ids (users (fst (perform c s))).
Proof.
  intros H. destruct c as [name email w|user_id|active_only|user_id w]; cbn.
  - by apply add_user_distinct.
  - by rewrite get_user_pure.
  - by rewrite list_users_pure.
  - by apply delete_user_distinct.
Qed.

Lemma run_distinct calls s :
  distinct_ids (users (fst s)) → distinct_ids (users (fst (run calls s))).
Proof.
  unfold run. revert s. induction calls as [|c calls IH]; intros s H; [done|].
  cbn. apply IH. by apply perform_distinct.
Qed.

(** *** An inactive record, step by step *)

Lemma add_user_keeps_records w name email s i r :
  record_at (users (fst s)) i = Some r →
  record_at (users (fst (snd (add_user w name email s)))) i = Some r.
Proof.
  destruct s as [self fs]. cbn [fst]. intros Hr.
  destruct (add_user_cases w name email self fs)
    as [->|(l & ids & new_id & Hl & _ & _ & b & fs' & ->)]; [done|].
  cbn. rewrite Hl in Hr. cbn in Hr. by apply lookup_app_l_Some.
Qed.

Lemma delete_user_keeps_inactive w user_id s i r :
  record_at (users (fst s)) i = Some r → inactive r = true →
  record_at (users (fst (snd (delete_user w user_id s)))) i = Some r.
Proof.
  destruct s as [self fs]. cbn [fst]. intros Hr Hin.
  destruct (delete_user_cases w user_id self fs)
    as [->|(l & j & d & b & fs' & Hl & Hj & _ & ->)]; [done|].
  unfold with_users. cbn [fst snd users record_at].
  rewrite Hl in Hr. cbn in Hr.
  destruct (decide (j = i)) as [->|Hne].
  - rewrite Hj in Hr. injection Hr as <-.
    rewrite (inactive_deactivated _ Hin). by rewrite list_insert_id.
  - by rewrite list_lookup_insert_ne.
Qed.

Lemma perform_keeps_inactive c s i r :
  record_at (users (fst s)) i = Some r → inactive r = true →
  record_at (users (fst (perform c s))) i = Some r.
Proof.
  intros Hr Hin. destruct c as [name email w|user_id|active_only|user_id w]; cbn.
  - by apply add_user_keeps_records.
  - by rewrite get_user_pure.
  - by rewrite list_users_pure.
  - by apply delete_user_keeps_inactive.
Qed.

(** *** The claims of the specification *)

(** C1, as amended.  On a store that is a sequence of user records, for a
    non-empty name and a non-empty email that contains ['@'] and is the
    email of no current record, and when the save that [add_user] makes
    returns [True]: [add_user] returns a user with [active = True] whose id
    is one greater than the greatest id among the records, or 1 for an empty
    store, and that user's dict is appended at the end of the in-memory
    list.  Without the save succeeding the method returns [None]. *)
Theorem add_user_success w name email self fs l :
  store_of (users self) l →
  name ≠ "" → email ≠ "" → str_contains "@" email = true →
  Forall (fun r => record_email r ≠ Some email) l →
  let user := new_user (omap record_id l) name email in
  fst (_save_users w (with_users self (PList (l ++ [to_dict user])), fs)) = Ok true →
  fst (add_user w name email (self, fs)) = Ok (Some user) ∧
  User_active user = true ∧
  (∃ n, User_id user = PInt n ∧
        (l = [] → n = 1) ∧
        (l ≠ [] → is_max (n - 1) (omap record_id l))) ∧
  users (fst (snd (add_user w name email (self, fs)))) = PList (l ++ [to_dict user]).
Proof.
  intros Hstore Hname Hemail Hat Hfresh user Hsaved.
  destruct (add_user_appends w name email self fs l Hstore Hname Hemail Hat Hfresh)
    as (b & fs' & Hsave & ->).
  fold user in Hsave. rewrite Hsave in Hsaved. injection Hsaved as ->.
  split; [reflexivity|]. split; [reflexivity|]. split; [|reflexivity].
  exists (max_default 0 (omap record_id l) + 1). split; [reflexivity|]. split.
  - by intros ->.
  - intros Hl. replace (_ + 1 - 1) with (max_default 0 (omap record_id l)) by lia.
    apply max_default_is_max. intros Hnil.
    destruct Hstore as [_ Hrec]. apply record_ids_length in Hrec.
    rewrite Hnil in Hrec. by destruct l.
Qed.

(** C2.  Whatever the store holds, [add_user] returns [None] and leaves
    the in-memory store (and the files) as they were when the name is
    empty, the email is empty, the email has no ['@'], or the email is the
    email of a record of the store, active or not. *)
Theorem add_user_rejects w name email self fs :
  name = "" ∨ email = "" ∨ str_contains "@" email = false ∨
  (∃ l, users self = PList l ∧ Exists (fun r => record_email r = Some email) l) →
  add_user w name email (self, fs) = (Ok None, (self, fs)).
Proof.
  intros H.
  unfold add_user, try_except, lift, get_self; cbn.
  destruct (String.eqb_spec name "") as [|Hname]; [reflexivity|].
  destruct (String.eqb_spec email "") as [|Hemail]; [reflexivity|].
  destruct (str_contains "@" email) eqn:Hat; [|reflexivity].
  destruct H as [?|[?|[?|(l & Hl & Hdup)]]]; try done.
  cbn. rewrite Hl. cbn.
  pose proof (email_taken_dup email l Hdup) as Htaken.
  destruct (email_taken email l) as [[]|e]; cbn; done.
Qed.


(** C5.  Constructing a manager from a path that names no file, or a file
    whose text is not JSON, or whose read fails for any reason at all,
    returns (it does not raise) a manager with the empty list. *)
Theorem init_fails_soft fs path :
  (fs !! path = None
   ∨ (∃ content, fs !! path = Some (File content) ∧ json_load content = Raise JSONDecodeError)
   ∨ (∃ e, (file <- read_file fs path ;; json_load file) = Raise e)) →
  __init__ fs path = Ok (mkUserManager path (PList [])).
Proof.
  intros H.
  assert (∃ e, (file <- read_file fs path ;; json_load file) = Raise e) as [e He].
  { destruct H as [Hnone|[(content & Hfile & Hbad)|H]]; [| |done].
    - exists FileNotFoundError. unfold read_file. by rewrite Hnone.
    - exists JSONDecodeError. unfold read_file. by rewrite Hfile. }
  unfold __init__, _load_users. rewrite He. by destruct e.
Qed.

(** C6.  On a store that is a sequence of user records,
    [list_users(active_only=True)] returns, in their order, exactly the
    records whose [active] is not [False] (a record without the key is
    among them), and [list_users(active_only=False)] returns the whole
    list; neither changes anything. *)
Theorem list_users_active_filter self fs l :
  store_of (users self) l →
  list_users true (self, fs)
    = (Ok (PList (List.filter (fun r => negb (inactive r)) l)), (self, fs)) ∧
  list_users false (self, fs) = (Ok (PList l), (self, fs)).
Proof.
  intros [Hl Hrec]. split.
  - unfold list_users, try_except, lift, get_self; cbn.
    rewrite Hl; cbn. pose proof (filter_active_records l Hrec) as Hf.
    cbn in Hf. rewrite Hf. reflexivity.
  - unfold list_users, try_except, get_self; cbn. by rewrite Hl.
Qed.

(** C7.  From the empty store, after any sequence of add, get, list and
    delete calls, whatever the operating system did with each write, the
    store is a sequence of user records, each with an id, and the ids are
    pairwise distinct; and a further [add_user] either leaves the list
    alone or appends the record whose id is [max(ids, default=0) + 1]. *)
Theorem ids_distinct_from_empty path fs calls :
  let s := run calls (mkUserManager path (PList []), fs) in
  ∃ l,
    store_of (users (fst s)) l ∧
    length (omap record_id l) = length l ∧ NoDup (omap record_id l) ∧
    ∀ w name email,
      let after := users (fst (snd (add_user w name email s))) in
      after = PList l ∨
      after = PList (l ++ [to_dict (mkUser (PInt (max_default 0 (omap record_id l) + 1))
                                           name email true)]).
Proof.
  intros s.
  destruct (run_distinct calls (mkUserManager path (PList []), fs)) as (l & Hstore & Hnodup).
  { exists []. split; [by split | apply NoDup_nil_2]. }
  exists l. split; [done|]. split; [apply record_ids_length, Hstore|]. split; [done|].
  intros w name email. subst s.
  destruct (run calls _) as [self fs']. by apply add_user_store_step.
Qed.

(** C8.  Whatever the store holds: a record whose [active] is [False]
    stays at its place, unchanged and so still inactive, through any
    sequence of add, get, list and delete calls. *)
Theorem inactive_is_final calls s i r :
  record_at (users (fst s)) i = Some r → inactive r = true →
  record_at (users (fst (run calls s))) i = Some r.
Proof.
  unfold run. revert s. induction calls as [|c calls IH]; intros s Hr Hin; [done|].
  cbn. apply IH; [|done]. by apply perform_keeps_inactive.
Qed.

(** C9.  On a store that is a sequence of user records, for a valid name
    and a valid, new email: when the save that [add_user] makes returns
    [False], [add_user] returns [None] and the new record is still at the
    end of the in-memory list. *)
Theorem add_user_save_fails w name email self fs l :
  store_of (users self) l →
  name ≠ "" → email ≠ "" → str_contains "@" email = true →
  Forall (fun r => record_email r ≠ Some email) l →
  let user := new_user (omap record_id l) name email in
  fst (_save_users w (with_users self (PList (l ++ [to_dict user])), fs)) = Ok false →
  fst (add_user w name email (self, fs)) = Ok None ∧
  users (fst (snd (add_user w name email (self, fs)))) = PList (l ++ [to_dict user]).
Proof.
  intros Hstore Hname Hemail Hat Hfresh user Hsaved.
  destruct (add_user_appends w name email self fs l Hstore Hname Hemail Hat Hfresh)
    as (b & fs' & Hsave & ->).
  fold user in Hsave. rewrite Hsave in Hsaved. injection Hsaved as ->.
  split; reflexivity.
Qed.

(** *** Further properties of the code *)

(** **** Construction *)

(** Construction from a file that parses keeps the parsed value as it is,
    without looking inside it, when the value is an array, an object or a
    string; when it is [null], a boolean or a number, the log line of
    [__init__] raises [TypeError] and no manager is built. *)
Theorem init_keeps_parsed_value fs path content v :
  fs !! path = Some (File content) → json_load content = Ok v →
  match v with
  | PList _ | PDict _ | PStr _ => __init__ fs path = Ok (mkUserManager path v)
  | PNone | PBool _ | PInt _ | PFloat _ => __init__ fs path = Raise TypeError
  end.
Proof.
  intros Hfile Hjson. unfold __init__, _load_users, read_file.
  rewrite Hfile. cbn. rewrite Hjson. by destruct v.
Qed.

(** **** Reading *)

Lemma get_user_absent user_id self fs l :
  store_of (users self) l →
  Forall (fun r => record_id r ≠ Some user_id) l →
  get_user user_id (self, fs) =
    (if 10 ^ int_max_str_digits <=? Z.abs user_id then Raise ValueError else Ok None,
     (self, fs)).
Proof.
  intros [Hl Hrec] Hno.
  unfold get_user, try_except, lift, get_self; cbn. rewrite Hl; cbn.
  rewrite (find_id_absent user_id 0 l Hrec Hno). cbn.
  unfold int_to_str. by destruct (10 ^ int_max_str_digits <=? Z.abs user_id).
Qed.

(** [get_user] on a sequence of user records: the first record with the
    id, exactly as stored; when no record has the id, [None] for an id of
    at most 4300 digits, and for a longer one the [ValueError] of the log
    lines, which leaves the method through its handler.  Nothing
    changes. *)
Theorem get_user_first self fs l user_id :
  store_of (users self) l →
  (∀ i r,
     l !! i = Some r → record_id r = Some user_id →
     (∀ j r', (j < i)%nat → l !! j = Some r' → record_id r' ≠ Some user_id) →
     get_user user_id (self, fs) = (Ok (Some r), (self, fs))) ∧
  (Forall (fun r => record_id r ≠ Some user_id) l →
     get_user user_id (self, fs) =
       (if 10 ^ int_max_str_digits <=? Z.abs user_id then Raise ValueError else Ok None,
        (self, fs))).
Proof.
  intros Hstore. split; [|by apply get_user_absent].
  destruct Hstore as [Hl Hrec]. intros i r Hi Hid Hfirst.
  unfold get_user, try_except, lift, get_self; cbn. rewrite Hl; cbn.
  by rewrite (find_id_first user_id 0 l i r Hrec Hi Hid Hfirst).
Qed.




(** **** Deleting *)

Lemma delete_user_absent w user_id self fs l :
  store_of (users self) l →
  Forall (fun r => record_id r ≠ Some user_id) l →
  delete_user w user_id (self, fs) =
    (if 10 ^ int_max_str_digits <=? Z.abs user_id then Raise ValueError else Ok false,
     (self, fs)).
Proof.
  intros [Hl Hrec] Hno.
  unfold delete_user, try_except, lift, get_self; cbn.
  rewrite Hl; cbn. rewrite (find_id_absent user_id 0 l Hrec Hno). cbn.
  unfold int_to_str. by destruct (10 ^ int_max_str_digits <=? Z.abs user_id).
Qed.

(** [delete_user] on a sequence of user records.  When [r], at place [i],
    is the first record whose id is [user_id]: the list in memory, which is
    the list that is saved, has [r] with [active] set to [False] at place
    [i], every other field of [r] and every other place being as before;
    and for an id of at most 4300 digits the method returns what the save
    returns.  When no record has the id, nothing changes: the method
    returns [False] for an id of at most 4300 digits, and for a longer one
    the [ValueError] of its log lines leaves it through the handler. *)
Theorem delete_user_frame w user_id self fs l :
  store_of (users self) l →
  (∀ i r,
     l !! i = Some r → record_id r = Some user_id →
     (∀ j r', (j < i)%nat → l !! j = Some r' → record_id r' ≠ Some user_id) →
     let l' := <[i := deactivated r]> l in
     let saved := _save_users w (with_users self (PList l'), fs) in
     snd (delete_user w user_id (self, fs)) = snd saved ∧
     (Z.abs user_id < 10 ^ int_max_str_digits →
        delete_user w user_id (self, fs) = saved) ∧
     users (fst (snd (delete_user w user_id (self, fs)))) = PList l' ∧
     l' !! i = Some (deactivated r) ∧
     record_field "active" (deactivated r) = Some (PBool false) ∧
     (∀ key, key ≠ "active" → record_field key (deactivated r) = record_field key r) ∧
     (∀ j, j ≠ i → l' !! j = l !! j) ∧
     length l' = length l) ∧
  (Forall (fun r => record_id r ≠ Some user_id) l →
     delete_user w user_id (self, fs) =
       (if 10 ^ int_max_str_digits <=? Z.abs user_id then Raise ValueError else Ok false,
        (self, fs))).
Proof.
  intros [Hl Hrec]. split.
  - intros i r Hi Hid Hfirst l' saved.
    destruct (delete_user_found w user_id self fs l i r (conj Hl Hrec) Hi Hid Hfirst)
      as (b & fs' & Hsave & Hdel).
    fold l' in Hsave, Hdel. subst saved. rewrite Hsave, Hdel. cbn [fst snd users with_users].
    split; [done|]. split.
    { intros [str Hstr]%int_to_str_small. rewrite Hstr. by destruct b. }
    split; [done|].
    split. { apply list_lookup_insert_eq. by eapply lookup_lt_Some. }
    rewrite Forall_lookup in Hrec. apply Hrec in Hi as Hr.
    apply user_record_inv in Hr as (d & _ & _ & _ & -> & _). cbn.
    split. { apply lookup_insert_eq. }
    split. { intros key Hkey. by apply lookup_insert_ne. }
    split. { intros j Hj. by apply list_lookup_insert_ne. }
    apply length_insert.
  - by apply delete_user_absent.
Qed.

(** Deleting a user who is already inactive is not an error: the store
    stays as it is and is saved once more, and for an id of at most 4300
    digits the call returns what that save returns. *)
Theorem delete_inactive_resaves w user_id self fs l i r :
  store_of (users self) l →
  l !! i = Some r → record_id r = Some user_id →
  (∀ j r', (j < i)%nat → l !! j = Some r' → record_id r' ≠ Some user_id) →
  inactive r = true →
  snd (delete_user w user_id (self, fs)) = snd (_save_users w (self, fs)) ∧
  (Z.abs user_id < 10 ^ int_max_str_digits →
     delete_user w user_id (self, fs) = _save_users w (self, fs)).
Proof.
  intros Hstore Hi Hid Hfirst Hin.
  destruct (delete_user_found w user_id self fs l i r Hstore Hi Hid Hfirst)
    as (b & fs' & Hsave & Hdel).
  rewrite (inactive_deactivated r Hin), list_insert_id in Hsave, Hdel by done.
  destruct Hstore as [Hl _]. unfold with_users in Hsave, Hdel. rewrite <- Hl in Hsave, Hdel.
  replace {| filename := filename self; users := users self |} with self in Hsave, Hdel
    by by destruct self.
  rewrite Hsave, Hdel. split; [done|].
  intros [str Hstr]%int_to_str_small. rewrite Hstr. by destruct b.
Qed.

(** **** What raises *)

(** The manager's methods and exceptions: [add_user], [list_users] and
    [_save_users] return whatever the store holds and whatever happens to
    the file; [get_user] and [delete_user] return too when the id has at
    most 4300 digits, and what leaves them otherwise is the [ValueError]
    of a log line. *)
Theorem only_long_id_raises w name email user_id active_only s :
  (∃ out, fst (add_user w name email s) = Ok out) ∧
  (∃ out, fst (list_users active_only s) = Ok out) ∧
  (∃ out, fst (_save_users w s) = Ok out) ∧
  (∀ e, fst (get_user user_id s) = Raise e →
        e = ValueError ∧ 10 ^ int_max_str_digits ≤ Z.abs user_id) ∧
  (∀ e, fst (delete_user w user_id s) = Raise e →
        e = ValueError ∧ 10 ^ int_max_str_digits ≤ Z.abs user_id).
Proof.
  assert (∀ e, int_to_str user_id = Raise e →
               e = ValueError ∧ 10 ^ int_max_str_digits ≤ Z.abs user_id) as Hstr.
  { intros e. unfold int_to_str.
    destruct (Z.leb_spec (10 ^ int_max_str_digits) (Z.abs user_id)); [|done].
    by intros [= <-]. }
  destruct s as [self fs]. split; [|split; [|split; [|split]]].
  - destruct (add_user_cases w name email self fs)
      as [->|(? & ? & ? & _ & _ & _ & b & fs' & ->)]; cbn; eauto.
  - unfold list_users, try_except, lift, get_self; cbn.
    destruct active_only; cbn; [|eauto].
    destruct (py_iter (users self)) as [items|e]; cbn; [|eauto].
    match goal with
    | |- context [filter_result ?p items] => destruct (filter_result p items) as [kept|e]
    end; cbn; eauto.
  - destruct (save_users_returns w self fs) as (b & fs' & ->). eauto.
  - intros e. unfold get_user, try_except, lift, get_self; cbn.
    destruct (py_iter (users self)) as [items|e0]; cbn.
    + destruct (find_id user_id 0 items) as [[[i r]|]|e0]; cbn; [done| |];
        destruct (int_to_str user_id) as [str|e1] eqn:He1; cbn; try done;
        intros [= <-]; by apply Hstr.
    + destruct (int_to_str user_id) as [str|e1] eqn:He1; cbn; [done|].
      intros [= <-]. by apply Hstr.
  - intros e.
    destruct (delete_user_cases w user_id self fs)
      as [->|(l & i & d & b & fs' & _ & _ & _ & ->)]; cbn.
    + destruct (int_to_str user_id) as [str|e1] eqn:He1; [done|].
      intros [= <-]. by apply Hstr.
    + destruct b; [|done].
      destruct (int_to_str user_id) as [str|e1] eqn:He1; [done|].
      intros [= <-]. by apply Hstr.
Qed.

(** **** Adding, then reading *)

(** [add_user] by cases, with what the checks established when a record
    was appended. *)
Lemma add_user_inv w name email self fs :
  add_user w name email (self, fs) = (Ok None, (self, fs)) ∨
  ∃ l ids new_id,
    users self = PList l ∧
    name ≠ "" ∧ email ≠ "" ∧ str_contains "@" email = true ∧
    email_taken email l = Ok false ∧
    map_result (fun user => py_get user "id" (PInt 0)) l = Ok ids ∧
    next_id ids = Ok new_id ∧
    let user := mkUser new_id name email true in
    let self' := with_users self (PList (l ++ [to_dict user])) in
    ∃ (b : bool) fs',
      _save_users w (self', fs) = (Ok b, (self', fs')) ∧
      add_user w name email (self, fs) = (Ok (if b then Some user else None), (self', fs')).
Proof.
  unfold add_user, try_except, lift, get_self, set_users; cbn.
  destruct (String.eqb_spec name "") as [|Hname]; cbn; [by left|].
  destruct (String.eqb_spec email "") as [|Hemail]; cbn; [by left|].
  destruct (str_contains "@" email) eqn:Hat; cbn; [|by left].
  destruct (py_iter (users self)) as [items|e] eqn:Hiter; cbn; [|by left].
  destruct (email_taken email items) as [[]|e] eqn:Htaken; cbn; [by left| |by left].
  match goal with
  | |- context [map_result ?f items] =>
      destruct (map_result f items) as [ids|e] eqn:Hids
  end; cbn; [|by left].
  destruct (next_id ids) as [new_id|e] eqn:Hnew; cbn; [|by left].
  destruct (users self) as [| | | | |l|d] eqn:Hl; cbn; try by left.
  injection Hiter as <-.
  right. exists l, ids, new_id. repeat split; try done.
  destruct (save_users_returns w
    {| filename := filename self;
       users := PList (l ++ [to_dict (mkUser new_id name email true)]) |} fs)
    as (b & fs' & Hsave).
  exists b, fs'. unfold with_users. split; [done|]. rewrite Hsave. by destruct b.
Qed.

(** The same on a sequence of user records: the ids are integers and the
    email is new. *)
Lemma add_user_inv_store w name email self fs l :
  store_of (users self) l →
  add_user w name email (self, fs) = (Ok None, (self, fs)) ∨
  (name ≠ "" ∧ email ≠ "" ∧ str_contains "@" email = true ∧
   Forall (fun r => record_email r ≠ Some email) l ∧
   let user := new_user (omap record_id l) name email in
   let self' := with_users self (PList (l ++ [to_dict user])) in
   ∃ (b : bool) fs',
     _save_users w (self', fs) = (Ok b, (self', fs')) ∧
     add_user w name email (self, fs) = (Ok (if b then Some user else None), (self', fs'))).
Proof.
  intros [Hl Hrec].
  destruct (add_user_inv w name email self fs)
    as [?|(l0 & ids & new_id & Hl0 & Hname & Hemail & Hat & Htaken & Hids & Hnew
           & b & fs' & Hsave & Hadd)]; [by left|].
  right. rewrite Hl in Hl0. injection Hl0 as <-.
  rewrite (collect_ids l Hrec) in Hids. injection Hids as <-.
  rewrite next_id_ints in Hnew. injection Hnew as <-.
  repeat split; try done.
  - clear -Hrec Htaken. induction Hrec as [|r l Hr _ IH]; [constructor|].
    apply user_record_inv in Hr as (d & n & nm & em & -> & _ & _ & Hem & _).
    cbn in Htaken. rewrite Hem in Htaken; cbn in Htaken.
    destruct (String.eqb_spec em email) as [->|Hne]; [discriminate|].
    constructor; [|by apply IH].
    unfold record_email; cbn. rewrite Hem. congruence.
  - exists b, fs'. by split.
Qed.

Lemma record_id_elem l r k :
  r ∈ l → record_id r = Some k → k ∈ omap record_id l.
Proof. intros Hr Hk. apply list_elem_of_omap. eauto. Qed.

(** Add, then get: the user [add_user] returned is what [get_user] finds
    under the id it was given. *)
Theorem add_then_get w name email self fs l u s' :
  store_of (users self) l →
  add_user w name email (self, fs) = (Ok (Some u), s') →
  ∃ n, User_id u = PInt n ∧ get_user n s' = (Ok (Some (to_dict u)), s').
Proof.
  intros Hstore Hadd.
  destruct (add_user_inv_store w name email self fs l Hstore)
    as [Hnone|(_ & _ & _ & _ & b & fs' & _ & Hadd')].
  { rewrite Hnone in Hadd. discriminate. }
  rewrite Hadd' in Hadd. destruct b; [|discriminate]. injection Hadd as <- <-.
  set (n := max_default 0 (omap record_id l) + 1).
  set (u := new_user (omap record_id l) name email).
  destruct (to_dict_record u n eq_refl) as [Hrec Hid].
  exists n. split; [reflexivity|].
  destruct Hstore as [_ Hl].
  unfold get_user, try_except, lift, get_self, with_users; cbn.
  rewrite (find_id_first n 0 (l ++ [to_dict u]) (length l) (to_dict u)); [done| | | |].
  - apply Forall_app. split; [done | by apply Forall_singleton].
  - by rewrite list_lookup_middle.
  - done.
  - intros j r' Hj Hr' Hk.
    rewrite lookup_app_l in Hr' by done.
    apply list_elem_of_lookup_2 in Hr'.
    by apply (max_default_fresh (omap record_id l)), (record_id_elem l r').
Qed.

(** The duplicate check stops [add_user] at an email that is in the list. *)
Lemma add_user_dup w name email self fs l :
  users self = PList l →
  Exists (fun r => record_email r = Some email) l →
  add_user w name email (self, fs) = (Ok None, (self, fs)).
Proof.
  intros Hl Hdup.
  unfold add_user, try_except, lift, get_self; cbn.
  destruct (negb (negb (String.eqb name "")) || negb (negb (String.eqb email "")));
    [done|].
  destruct (negb (str_contains "@" email)); [done|]. cbn.
  rewrite Hl. cbn.
  pose proof (email_taken_dup email l Hdup) as Htaken.
  destruct (email_taken email l) as [[]|e]; cbn; done.
Qed.

(** Once [add_user] has appended a record, even when the save failed and
    it returned [None], a later [add_user] with that email returns [None]
    and changes nothing: an add whose save failed cannot be tried again. *)
Theorem added_email_is_taken w w' name name' email s :
  let s1 := snd (add_user w name email s) in
  users (fst s1) ≠ users (fst s) →
  add_user w' name' email s1 = (Ok None, s1).
Proof.
  intros s1. subst s1. destruct s as [self fs]. cbn [fst]. intros Hchanged.
  destruct (add_user_inv w name email self fs)
    as [Hnone|(l & ids & new_id & _ & _ & _ & _ & _ & _ & _ & b & fs' & _ & Hadd)].
  { rewrite Hnone in Hchanged. by destruct Hchanged. }
  rewrite Hadd. cbn [snd].
  apply (add_user_dup w' name' email _ fs' (l ++ [to_dict (mkUser new_id name email true)]));
    [reflexivity|].
  apply Exists_app. right. by apply Exists_cons_hd.
Qed.

(** Delete, then read, on a sequence of user records: whether the save
    went through or not, [get_user] finds the record with [active] set to
    [False], and the active-only listing is the filter of the new list,
    which does not contain it. *)
Theorem delete_then_reads w user_id self fs l i r :
  store_of (users self) l →
  l !! i = Some r → record_id r = Some user_id →
  (∀ j r', (j < i)%nat → l !! j = Some r' → record_id r' ≠ Some user_id) →
  let s' := snd (delete_user w user_id (self, fs)) in
  let active := List.filter (fun x => negb (inactive x)) (<[i := deactivated r]> l) in
  get_user user_id s' = (Ok (Some (deactivated r)), s') ∧
  list_users true s' = (Ok (PList active), s') ∧
  deactivated r ∉ active.
Proof.
  intros Hstore Hi Hid Hfirst s' active. subst s'.
  destruct (delete_user_found w user_id self fs l i r Hstore Hi Hid Hfirst)
    as (b & fs' & _ & ->). cbn [snd].
  destruct Hstore as [_ Hrec].
  assert (user_record r = true) as Hr by (rewrite Forall_lookup in Hrec; eauto).
  destruct (deactivated_record r Hr) as [Hr' Hid'].
  assert (Forall (fun x => user_record x = true) (<[i := deactivated r]> l)) as Hrec'
    by by apply Forall_insert.
  split; [|split].
  - unfold get_user, try_except, lift, get_self, with_users; cbn.
    rewrite (find_id_first user_id 0 _ i (deactivated r) Hrec'); [done| | |].
    + apply list_lookup_insert_eq. by eapply lookup_lt_Some.
    + congruence.
    + intros j r' Hj Hr'j. rewrite list_lookup_insert_ne in Hr'j by lia. by eapply Hfirst.
  - unfold list_users, try_except, lift, get_self, with_users; cbn.
    pose proof (filter_active_records _ Hrec') as Hf. cbn in Hf. by rewrite Hf.
  - intros Hin%list_elem_of_In%filter_In. destruct Hin as [_ Hact].
    apply user_record_inv in Hr as (d & _ & _ & _ & -> & _).
    unfold inactive in Hact; cbn in Hact. by rewrite lookup_insert_eq in Hact.
Qed.

(** **** The file *)

(** A save that returned [True] left the dump of the store in the file. *)
Lemma save_true_file w self fs s' :
  _save_users w (self, fs) = (Ok true, s') →
  s' = (self, <[filename self := File (json_dump (users self) 2)]> fs).
Proof.
  rewrite save_users_eq. unfold write_file.
  destruct (fs !! filename self) as [[]|]; destruct w;
    try discriminate; destruct (py_len (users self)); try discriminate;
    by intros [= <-].
Qed.

(** After a call that reported success, the file holds the dump of the
    store as it is in memory. *)
Theorem success_leaves_file_in_step w name email user_id self fs :
  (∀ u s', add_user w name email (self, fs) = (Ok (Some u), s') →
     snd s' !! filename (fst s') = Some (File (json_dump (users (fst s')) 2))) ∧
  (∀ s', delete_user w user_id (self, fs) = (Ok true, s') →
     snd s' !! filename (fst s') = Some (File (json_dump (users (fst s')) 2))).
Proof.
  split.
  - intros u s' Hadd.
    destruct (add_user_inv w name email self fs)
      as [Hnone|(l & ids & new_id & _ & _ & _ & _ & _ & _ & _ & b & fs' & Hsave & Hadd')].
    { rewrite Hnone in Hadd. discriminate. }
    rewrite Hadd' in Hadd. destruct b; [|discriminate]. injection Hadd as _ <-.
    apply save_true_file in Hsave. injection Hsave as ->.
    apply lookup_insert_eq.
  - intros s' Hdel.
    destruct (delete_user_cases w user_id self fs)
      as [Hnone|(l & i & d & b & fs' & _ & _ & Hsave & Hdel')].
    { rewrite Hnone in Hdel. by destruct (int_to_str user_id). }
    rewrite Hdel' in Hdel. destruct b; [|discriminate].
    destruct (int_to_str user_id); [|discriminate]. injection Hdel as <-.
    apply save_true_file in Hsave. injection Hsave as ->.
    apply lookup_insert_eq.
Qed.

(** When the file cannot be opened for writing, a record added in memory
    is not in the file: for a manager constructed from the files as they
    were, after an [add_user] that appended its record, a manager
    constructed again from the same path is the one of before, without the
    new record. *)
Theorem unsaved_add_lost_on_restart name email self fs l :
  __init__ fs (filename self) = Ok self →
  store_of (users self) l →
  name ≠ "" → email ≠ "" → str_contains "@" email = true →
  Forall (fun r => record_email r ≠ Some email) l →
  let s' := snd (add_user OpenFails name email (self, fs)) in
  users (fst s') = PList (l ++ [to_dict (new_user (omap record_id l) name email)]) ∧
  __init__ (snd s') (filename (fst s')) = Ok self.
Proof.
  intros Hinit Hstore Hname Hemail Hat Hfresh s'. subst s'.
  destruct (add_user_appends OpenFails name email self fs l Hstore Hname Hemail Hat Hfresh)
    as (b & fs' & Hsave & ->). cbn [fst snd users with_users filename].
  split; [reflexivity|].
  rewrite save_users_eq in Hsave. unfold write_file in Hsave. cbn in Hsave.
  destruct (fs !! filename self) as [[]|]; by injection Hsave as _ <-.
Qed.

(** **** Sessions *)

Lemma deactivated_idemp r : deactivated (deactivated r) = deactivated r.
Proof.
  destruct r as [| | | | | |d]; try reflexivity. cbn. f_equal. apply insert_insert_eq.
Qed.

Lemma continues_refl l : continues l l.
Proof. split; [done|]. intros i r Hi. by left. Qed.

Lemma continues_trans l1 l2 l3 : continues l1 l2 → continues l2 l3 → continues l1 l3.
Proof.
  intros [Hlen12 H12] [Hlen23 H23]. split; [lia|].
  intros i r Hi. destruct (H12 i r Hi) as [H2|H2]; apply H23 in H2 as [H3|H3]; auto.
  rewrite deactivated_idemp in H3. auto.
Qed.

Lemma perform_continues c s l :
  users (fst s) = PList l →
  ∃ l', users (fst (perform c s)) = PList l' ∧ continues l l'.
Proof.
  destruct s as [self fs]. cbn [fst]. intros Hl.
  destruct c as [name email w|user_id|active_only|user_id w]; cbn.
  - destruct (add_user_cases w name email self fs)
      as [->|(l0 & ids & new_id & Hl0 & _ & _ & b & fs' & ->)].
    { exists l. split; [done | apply continues_refl]. }
    rewrite Hl in Hl0. injection Hl0 as <-. cbn. eexists. split; [done|]. split.
    + rewrite length_app. lia.
    + intros i r Hi. left. by apply lookup_app_l_Some.
  - rewrite get_user_pure. exists l. split; [done | apply continues_refl].
  - rewrite list_users_pure. exists l. split; [done | apply continues_refl].
  - destruct (delete_user_cases w user_id self fs)
      as [->|(l0 & j & d & b & fs' & Hl0 & Hj & _ & ->)].
    { exists l. split; [done | apply continues_refl]. }
    unfold with_users. cbn [fst snd users].
    rewrite Hl in Hl0. injection Hl0 as <-. eexists. split; [done|]. split.
    + by rewrite length_insert.
    + intros i r Hi. destruct (decide (j = i)) as [->|Hne].
      * right. rewrite Hj in Hi. injection Hi as <-.
        apply list_lookup_insert_eq. by eapply lookup_lt_Some.
      * left. by rewrite list_lookup_insert_ne.
Qed.

(** No call removes or reorders records, and none changes a record other
    than by setting its [active] to [False]: after any calls on a list,
    whether they returned or raised, the store is a list that continues
    it. *)
Theorem records_only_deactivated calls s l :
  users (fst s) = PList l →
  ∃ l', users (fst (run calls s)) = PList l' ∧ continues l l'.
Proof.
  unfold run. revert s l. induction calls as [|c calls IH]; intros s l Hl.
  { exists l. split; [done | apply continues_refl]. }
  cbn. destruct (perform_continues c s l Hl) as (l1 & Hl1 & H1).
  destruct (IH _ l1 Hl1) as (l2 & Hl2 & H2).
  exists l2. split; [done|]. by eapply continues_trans.
Qed.

(** The items of a store that is a str or a dict are strs. *)
Lemma iter_not_list v items :
  (∀ l, v ≠ PList l) → py_iter v = Ok items →
  items = [] ∨ ∃ (c : string) rest, items = PStr c :: rest.
Proof.
  intros Hv. destruct v as [| | | |str|l|d]; cbn; try discriminate.
  - intros [= <-]. destruct str; cbn; eauto.
  - by destruct (Hv l).
  - intros [= <-]. destruct (map_to_list d) as [|[k x] rest]; cbn; eauto.
Qed.

(** A store that is not a list (a file that held a JSON object or a JSON
    string) makes the manager inert: adding returns [None], the
    active-only listing is empty, getting returns [None] and deleting
    [False] (for an id of more than 4300 digits both raise [ValueError]),
    and nothing is changed or written. *)
Theorem non_list_store_inert w name email user_id self fs :
  (∀ l, users self ≠ PList l) →
  add_user w name email (self, fs) = (Ok None, (self, fs)) ∧
  list_users true (self, fs) = (Ok (PList []), (self, fs)) ∧
  get_user user_id (self, fs) =
    (if 10 ^ int_max_str_digits <=? Z.abs user_id then Raise ValueError else Ok None,
     (self, fs)) ∧
  delete_user w user_id (self, fs) =
    (if 10 ^ int_max_str_digits <=? Z.abs user_id then Raise ValueError else Ok false,
     (self, fs)).
Proof.
  intros Hv.
  assert (∀ x, py_append (users self) x = Raise AttributeError) as Happend.
  { intros x. destruct (users self) as [| | | | |l|d] eqn:Hu; try reflexivity.
    by destruct (Hv l). }
  repeat split.
  - unfold add_user, try_except, lift, get_self, set_users; cbn.
    destruct (negb (negb (String.eqb name "")) || negb (negb (String.eqb email "")));
      [done|].
    destruct (negb (str_contains "@" email)); [done|]. cbn.
    destruct (py_iter (users self)) as [items|e] eqn:Hiter; cbn; [|done].
    destruct (iter_not_list _ _ Hv Hiter) as [->|(c & rest & ->)]; cbn; [|done].
    by rewrite Happend.
  - unfold list_users, try_except, lift, get_self; cbn.
    destruct (py_iter (users self)) as [items|e] eqn:Hiter; cbn; [|done].
    by destruct (iter_not_list _ _ Hv Hiter) as [->|(c & rest & ->)].
  - unfold get_user, try_except, lift, get_self; cbn.
    destruct (py_iter (users self)) as [items|e] eqn:Hiter; cbn;
      [destruct (iter_not_list _ _ Hv Hiter) as [->|(c & rest & ->)]; cbn|];
      unfold int_to_str; by destruct (10 ^ int_max_str_digits <=? Z.abs user_id).
  - unfold delete_user, try_except, lift, get_self; cbn.
    destruct (py_iter (users self)) as [items|e] eqn:Hiter; cbn;
      [destruct (iter_not_list _ _ Hv Hiter) as [->|(c & rest & ->)]; cbn|];
      unfold int_to_str; by destruct (10 ^ int_max_str_digits <=? Z.abs user_id).
Qed.

(** **** Stores built through the interface *)

Lemma valid_user_record r :
  valid_user r →
  user_record r = true ∧
  ∃ n email, record_id r = Some n ∧ record_email r = Some email.
Proof.
  intros (n & name & email & active & -> & _). split; [reflexivity|].
  exists n, email. split; reflexivity.
Qed.

Lemma to_dict_deactivated u :
  deactivated (to_dict u) = to_dict (mkUser (User_id u) (User_name u) (User_email u) false).
Proof.
  destruct u as [uid name email active]. reflexivity.
Qed.

Lemma deactivated_valid r : valid_user r → valid_user (deactivated r).
Proof.
  intros (n & name & email & active & -> & Hn & Hname & Hemail & Hat).
  exists n, name, email, false. by rewrite to_dict_deactivated.
Qed.

Lemma omap_insert_same {A} (f : pyval → option A) l i r r' :
  l !! i = Some r → f r' = f r → omap f (<[i := r']> l) = omap f l.
Proof.
  revert i. induction l as [|x l IH]; intros [|i] Hi Heq; try done; cbn in *.
  - injection Hi as ->. by rewrite Heq.
  - destruct (f x); [f_equal|]; by apply IH.
Qed.

Lemma is_max_unique m m' xs : is_max m xs → is_max m' xs → m = m'.
Proof.
  intros [Hin Hle] [Hin' Hle']. apply Hle' in Hin. apply Hle in Hin'. lia.
Qed.

Lemma max_ids_upto n : max_default 0 (ids_upto n) = Z.of_nat n.
Proof.
  destruct n as [|n]; [reflexivity|].
  apply (is_max_unique _ _ (ids_upto (S n))).
  - by apply max_default_is_max.
  - unfold ids_upto. split.
    + apply list_elem_of_fmap. exists (S n). split; [done|].
      apply elem_of_seq. lia.
    + intros x (k & -> & Hk%elem_of_seq)%list_elem_of_fmap. lia.
Qed.

Lemma ids_upto_S n : ids_upto (S n) = ids_upto n ++ [Z.of_nat n + 1].
Proof.
  unfold ids_upto. rewrite seq_S, fmap_app. cbn. do 2 f_equal. lia.
Qed.

Lemma email_taken_false l email :
  Forall (fun r => user_record r = true) l →
  email_taken email l = Ok false →
  email ∉ omap record_email l.
Proof.
  intros Hrec Htaken (r & Hr & Hem)%list_elem_of_omap.
  apply (email_taken_dup email l); [|done].
  apply Exists_exists. eauto.
Qed.

Lemma add_user_built w name email s :
  built (users (fst s)) → built (users (fst (snd (add_user w name email s)))).
Proof.
  destruct s as [self fs]. cbn [fst]. intros (l & Hl & Hvalid & Hids & Hemails).
  assert (Forall (fun r => user_record r = true) l) as Hrec.
  { eapply Forall_impl; [done|]. by intros r [? _]%valid_user_record. }
  destruct (add_user_inv w name email self fs)
    as [->|(l0 & ids & new_id & Hl0 & Hname & Hemail & Hat & Htaken & Hcollect & Hnew
            & b & fs' & _ & ->)].
  { by exists l. }
  rewrite Hl in Hl0. injection Hl0 as <-.
  rewrite (collect_ids l Hrec) in Hcollect. injection Hcollect as <-.
  rewrite next_id_ints, Hids, max_ids_upto in Hnew. injection Hnew as <-.
  cbn. eexists. split; [done|]. split; [|split].
  - apply Forall_app. split; [done|]. apply Forall_singleton.
    exists (Z.of_nat (length l) + 1), name, email, true. repeat split; try done. lia.
  - rewrite omap_app, length_app, Hids. cbn. rewrite Nat.add_1_r. by rewrite ids_upto_S.
  - rewrite omap_app. cbn. apply NoDup_app. split; [done|]. split; [|apply NoDup_singleton].
    intros x Hx ->%list_elem_of_singleton. by apply (email_taken_false l email).
Qed.

Lemma delete_user_built w user_id s :
  built (users (fst s)) → built (users (fst (snd (delete_user w user_id s)))).
Proof.
  destruct s as [self fs]. cbn [fst]. intros (l & Hl & Hvalid & Hids & Hemails).
  destruct (delete_user_cases w user_id self fs)
    as [->|(l0 & i & d & b & fs' & Hl0 & Hi & _ & ->)].
  { by exists l. }
  unfold with_users. cbn [fst snd users].
  rewrite Hl in Hl0. injection Hl0 as <-.
  assert (valid_user (PDict d)) as Hd by (rewrite Forall_lookup in Hvalid; eauto).
  pose proof (deactivated_valid _ Hd) as Hd'.
  destruct Hd as (n & name & email & active & Heq & _).
  eexists. split; [done|]. split; [|split].
  - by apply Forall_insert.
  - rewrite length_insert, <- Hids. apply (omap_insert_same record_id l i (PDict d)); [done|].
    rewrite Heq, to_dict_deactivated. reflexivity.
  - rewrite (omap_insert_same record_email l i (PDict d)); [done|done|].
    rewrite Heq, to_dict_deactivated. reflexivity.
Qed.

Lemma perform_built c s :
  built (users (fst s)) → built (users (fst (perform c s))).
Proof.
  intros H. destruct c as [name email w|user_id|active_only|user_id w]; cbn.
  - by apply add_user_built.
  - by rewrite get_user_pure.
  - by rewrite list_users_pure.
  - by apply delete_user_built.
Qed.

Lemma run_built calls s :
  built (users (fst s)) → built (users (fst (run calls s))).
Proof.
  unfold run. revert s. induction calls as [|c calls IH]; intros s Hs; [done|].
  cbn. apply IH. by apply perform_built.
Qed.

Lemma built_empty : built (PList []).
Proof. exists []. repeat split; [constructor | apply NoDup_nil_2]. Qed.

(** From the empty store, whatever the calls and whatever happened to the
    writes: every record has the four keys of [to_dict], a positive id, a
    non-empty name and an email with an ['@']; the ids are 1, 2, ..., n in
    the order of the list (no id is skipped or used twice, a deleted user
    keeps his); and the emails are pairwise distinct. *)
Theorem built_store_model path fs calls :
  let s := run calls (mkUserManager path (PList []), fs) in
  ∃ l,
    users (fst s) = PList l ∧ Forall valid_user l ∧
    omap record_id l = ids_upto (length l) ∧ NoDup (omap record_email l).
Proof.
  apply (run_built calls (mkUserManager path (PList []), fs)), built_empty.
Qed.

End Properties.

(** ** Worked examples

    The properties at concrete stores, with files described by what
    [json.load] makes of them ([document_json]). *)

(** C1 at the store that holds Ann: adding Bo, with a write that goes
    through, returns Bo with id 2 and appends his record. *)
Lemma add_user_success_witness :
  fst (add_user WriteOk "Bo" "bo@x.com" (fresh (PList [to_dict ann]))) = Ok (Some bo) ∧
  users (fst (snd (add_user WriteOk "Bo" "bo@x.com" (fresh (PList [to_dict ann])))))
    = PList [to_dict ann; to_dict bo].
Proof.
  destruct (add_user_success (J := document_json) WriteOk "Bo" "bo@x.com"
              (mkUserManager "users.json" (PList [to_dict ann])) ∅ [to_dict ann])
    as (Hret & _ & _ & Hstore).
  - split; [reflexivity|]. constructor; [reflexivity | constructor].
  - discriminate.
  - discriminate.
  - reflexivity.
  - constructor; [vm_compute; discriminate | constructor].
  - vm_compute. reflexivity.
  - split; [exact Hret | exact Hstore].
Defined.

(** C1 as first stated fails when the file cannot be written: on the empty
    store, "Ann" and "ann@x.com" meet every condition of the claim, and
    [add_user] returns [None], although Ann's record, with id 1, is in the
    list. *)
Lemma add_user_unsaved_returns_nothing :
  store_of (PList []) [] ∧
  "Ann" ≠ "" ∧ "ann@x.com" ≠ "" ∧ str_contains "@" "ann@x.com" = true ∧
  Forall (fun r => record_email r ≠ Some "ann@x.com") [] ∧
  add_user OpenFails "Ann" "ann@x.com" (fresh (PList []))
    = (Ok None, fresh (PList [to_dict ann])).
Proof.
  split; [by split|]. split; [discriminate|]. split; [discriminate|].
  split; [reflexivity|]. split; [constructor|]. vm_compute. reflexivity.
Qed.

(** C2 at a store where Bo was deleted: his email is still taken. *)
Lemma add_user_rejects_witness :
  add_user WriteOk "Bob" "bo@x.com" (fresh (PList [to_dict ann; bo_deleted]))
    = (Ok None, fresh (PList [to_dict ann; bo_deleted])).
Proof.
  apply (add_user_rejects (J := document_json)).
  right; right; right. exists [to_dict ann; bo_deleted]. split; [reflexivity|].
  apply Exists_cons_tl, Exists_cons_hd. reflexivity.
Defined.

(** [10 ** 4300], the least [int] of 4301 digits, is past the limit of
    [str], and it is the id of none of the records above, whose ids have
    one digit. *)
Lemma pow10_nonneg k : 0 ≤ 10 ^ k.
Proof. apply Z.pow_nonneg. lia. Qed.

Lemma ten_le_long_id : 10 ≤ 10 ^ 4300.
Proof. change 10 with (10 ^ 1) at 1. apply Z.pow_le_mono_r; lia. Qed.

Lemma long_id_past_limit : (10 ^ int_max_str_digits <=? Z.abs (10 ^ 4300)) = true.
Proof.
  apply Z.leb_le. rewrite Z.abs_eq by apply pow10_nonneg. apply Z.le_refl.
Qed.

Lemma short_id_not_long r n :
  record_id r = Some n → Z.abs n < 10 → record_id r ≠ Some (10 ^ 4300).
Proof.
  intros -> Hn [= ->]. revert Hn. rewrite Z.abs_eq by apply pow10_nonneg.
  pose proof ten_le_long_id as Hle. revert Hle. generalize (10 ^ 4300). intros big. lia.
Qed.

(** C3.  [delete_user(10 ** 4300)] on the manager that holds Ann.  No
    record has this id, of 4301 digits.  After the loop the warning line
    cannot write the id into its f-string; [except Exception] catches the
    [ValueError], and the error line of the handler cannot write the id
    either: the [ValueError] leaves [delete_user], which was to return
    [False].  The store and the files are as before. *)
Theorem delete_user_raises_on_long_id :
  delete_user WriteOk (10 ^ 4300) (fresh (PList [to_dict ann]))
    = (Raise ValueError, fresh (PList [to_dict ann])).
Proof.
  pose proof long_id_past_limit as Hlong.
  pose proof (short_id_not_long (to_dict ann) 1 eq_refl eq_refl) as Hfresh.
  revert Hlong Hfresh. generalize (10 ^ 4300). intros n Hlong Hfresh.
  unfold fresh.
  rewrite (delete_user_absent (J := document_json) WriteOk n
             (mkUserManager "users.json" (PList [to_dict ann])) ∅ [to_dict ann]).
  - by rewrite Hlong.
  - split; [reflexivity|]. repeat constructor.
  - by repeat constructor.
Qed.



(** C5 at its three cases: no file, a file that is not JSON, a path that
    cannot be opened. *)
Lemma init_fails_soft_witness :
  __init__ (J := document_json) ∅ "users.json" = Ok (mkUserManager "users.json" (PList [])) ∧
  __init__ (only_file Malformed) "users.json" = Ok (mkUserManager "users.json" (PList [])) ∧
  __init__ (J := document_json) (<["users.json" := NoAccess]> ∅) "users.json"
    = Ok (mkUserManager "users.json" (PList [])).
Proof.
  split; [|split]; apply (init_fails_soft (J := document_json)).
  - left. reflexivity.
  - right; left. exists Malformed. split; reflexivity.
  - right; right. exists PermissionError. reflexivity.
Defined.

(** C6 at a store with an active, a deleted and an unflagged record. *)
Lemma list_users_active_filter_witness :
  fst (list_users true (fresh (PList [to_dict ann; bo_deleted; cy_unflagged])))
    = Ok (PList [to_dict ann; cy_unflagged]) ∧
  fst (list_users false (fresh (PList [to_dict ann; bo_deleted; cy_unflagged])))
    = Ok (PList [to_dict ann; bo_deleted; cy_unflagged]).
Proof.
  destruct (list_users_active_filter (J := document_json)
              (mkUserManager "users.json" (PList [to_dict ann; bo_deleted; cy_unflagged])) ∅
              [to_dict ann; bo_deleted; cy_unflagged]) as [Hactive Hall].
  - split; [reflexivity|]. repeat constructor.
  - split.
    + unfold fresh. rewrite Hactive. reflexivity.
    + unfold fresh. rewrite Hall. reflexivity.
Defined.

(** C8 at the store of Ann and the deleted Bo: nothing in [session]
    brings Bo back. *)
Lemma inactive_is_final_witness :
  record_at (users (fst (run session (fresh (PList [to_dict ann; bo_deleted]))))) 1
    = Some bo_deleted.
Proof.
  apply (inactive_is_final (J := document_json)); reflexivity.
Defined.

(** C9 at the store that holds Ann: adding Bo when the file cannot be
    opened returns [None] and leaves Bo in the list. *)
Lemma add_user_save_fails_witness :
  fst (add_user OpenFails "Bo" "bo@x.com" (fresh (PList [to_dict ann]))) = Ok None ∧
  users (fst (snd (add_user OpenFails "Bo" "bo@x.com" (fresh (PList [to_dict ann])))))
    = PList [to_dict ann; to_dict bo].
Proof.
  apply (add_user_save_fails (J := document_json) OpenFails "Bo" "bo@x.com"
           (mkUserManager "users.json" (PList [to_dict ann])) ∅ [to_dict ann]).
  - split; [reflexivity|]. constructor; [reflexivity | constructor].
  - discriminate.
  - discriminate.
  - reflexivity.
  - constructor; [vm_compute; discriminate | constructor].
  - vm_compute. reflexivity.
Defined.

(** C10.  A file that holds the number 5 is valid JSON, and [_load_users]
    returns 5 as it is; but [__init__] then takes [len(self.users)] for its
    log line, outside any [try], and the [TypeError] leaves the
    constructor: no manager is built, and 5 never becomes a store. *)
Theorem init_raises_on_number :
  _load_users (only_file (Parses (PInt 5))) "users.json" = PInt 5 ∧
  __init__ (only_file (Parses (PInt 5))) "users.json" = Raise TypeError.
Proof. split; reflexivity. Qed.

(** A JSON array is kept as it is, whatever its elements are, and so is a
    JSON object. *)
Lemma init_keeps_parsed_value_witness :
  __init__ (only_file (Parses stray)) "users.json" = Ok (mkUserManager "users.json" stray) ∧
  __init__ (only_file (Parses wrapped)) "users.json"
    = Ok (mkUserManager "users.json" wrapped).
Proof.
  split.
  - apply (init_keeps_parsed_value (J := document_json) (only_file (Parses stray))
             "users.json" (Parses stray) stray); reflexivity.
  - apply (init_keeps_parsed_value (J := document_json) (only_file (Parses wrapped))
             "users.json" (Parses wrapped) wrapped); reflexivity.
Defined.

(** [get_user] at the store of Ann and the deleted Bo: id 2, an id that is
    not there, and an id of 4301 digits. *)
Lemma get_user_first_witness :
  get_user 2 (fresh (PList [to_dict ann; bo_deleted]))
    = (Ok (Some bo_deleted), fresh (PList [to_dict ann; bo_deleted])) ∧
  get_user 7 (fresh (PList [to_dict ann; bo_deleted]))
    = (Ok None, fresh (PList [to_dict ann; bo_deleted])) ∧
  get_user (10 ^ 4300) (fresh (PList [to_dict ann; bo_deleted]))
    = (Raise ValueError, fresh (PList [to_dict ann; bo_deleted])).
Proof.
  assert (store_of (PList [to_dict ann; bo_deleted]) [to_dict ann; bo_deleted]) as Hstore.
  { split; [reflexivity|]. repeat constructor. }
  split; [|split].
  - destruct (get_user_first (J := document_json)
                (mkUserManager "users.json" (PList [to_dict ann; bo_deleted])) ∅
                [to_dict ann; bo_deleted] 2 Hstore) as [Hfound _].
    unfold fresh. rewrite (Hfound 1%nat bo_deleted); [reflexivity..|].
    intros [|[|j]] r' Hj Hr'; [|lia|lia].
    injection Hr' as <-. vm_compute. discriminate.
  - destruct (get_user_first (J := document_json)
                (mkUserManager "users.json" (PList [to_dict ann; bo_deleted])) ∅
                [to_dict ann; bo_deleted] 7 Hstore) as [_ Habsent].
    unfold fresh. rewrite Habsent; [reflexivity|].
    repeat constructor; vm_compute; discriminate.
  - destruct (get_user_first (J := document_json)
                (mkUserManager "users.json" (PList [to_dict ann; bo_deleted])) ∅
                [to_dict ann; bo_deleted] (10 ^ 4300) Hstore) as [_ Habsent].
    unfold fresh. rewrite Habsent; [rewrite long_id_past_limit; reflexivity|].
    constructor; [exact (short_id_not_long (to_dict ann) 1 eq_refl eq_refl)|].
    constructor; [exact (short_id_not_long bo_deleted 2 eq_refl eq_refl) | constructor].
Defined.


(** [delete_user] at the store of Ann and Bo: deleting id 2 changes Bo's
    record only and returns what the save returns, deleting id 5 changes
    nothing and returns [False]. *)
Lemma delete_user_frame_witness :
  delete_user WriteOk 2 (fresh (PList [to_dict ann; to_dict bo]))
    = _save_users WriteOk (fresh (PList [to_dict ann; bo_deleted])) ∧
  users (fst (snd (delete_user WriteOk 2 (fresh (PList [to_dict ann; to_dict bo])))))
    = PList [to_dict ann; bo_deleted] ∧
  delete_user WriteOk 5 (fresh (PList [to_dict ann; to_dict bo]))
    = (Ok false, fresh (PList [to_dict ann; to_dict bo])).
Proof.
  assert (store_of (PList [to_dict ann; to_dict bo]) [to_dict ann; to_dict bo]) as Hstore.
  { split; [reflexivity|]. repeat constructor. }
  destruct (delete_user_frame (J := document_json) WriteOk 2
              (mkUserManager "users.json" (PList [to_dict ann; to_dict bo])) ∅
              [to_dict ann; to_dict bo] Hstore) as [Hfound _].
  destruct (Hfound 1%nat (to_dict bo)) as (_ & Hret & Hafter & _).
  { reflexivity. }
  { reflexivity. }
  { intros [|[|j]] r' Hj Hr'; [|lia|lia].
    injection Hr' as <-. vm_compute. discriminate. }
  split; [|split].
  - apply Hret. reflexivity.
  - exact Hafter.
  - destruct (delete_user_frame (J := document_json) WriteOk 5
                (mkUserManager "users.json" (PList [to_dict ann; to_dict bo])) ∅
                [to_dict ann; to_dict bo] Hstore) as [_ Habsent].
    unfold fresh. rewrite Habsent; [reflexivity|].
    repeat constructor; vm_compute; discriminate.
Defined.

(** Deleting the deleted Bo again rewrites the file and returns [True]. *)
Lemma delete_inactive_resaves_witness :
  delete_user WriteOk 2 (fresh (PList [to_dict ann; bo_deleted]))
    = _save_users WriteOk (fresh (PList [to_dict ann; bo_deleted])) ∧
  fst (_save_users WriteOk (fresh (PList [to_dict ann; bo_deleted]))) = Ok true.
Proof.
  destruct (delete_inactive_resaves (J := document_json) WriteOk 2
              (mkUserManager "users.json" (PList [to_dict ann; bo_deleted])) ∅
              [to_dict ann; bo_deleted] 1 bo_deleted) as [_ Hret].
  - split; [reflexivity|]. repeat constructor.
  - reflexivity.
  - reflexivity.
  - intros [|[|j]] r' Hj Hr'; [|lia|lia].
    injection Hr' as <-. vm_compute. discriminate.
  - reflexivity.
  - split; [|reflexivity]. apply Hret. reflexivity.
Defined.

(** Bo, added to the store that holds Ann, is found under id 2. *)
Lemma add_then_get_witness :
  ∃ n, User_id bo = PInt n ∧
       fst (get_user n (snd (add_user WriteOk "Bo" "bo@x.com" (fresh (PList [to_dict ann])))))
         = Ok (Some (to_dict bo)).
Proof.
  destruct (add_then_get (J := document_json) WriteOk "Bo" "bo@x.com"
              (mkUserManager "users.json" (PList [to_dict ann])) ∅ [to_dict ann] bo
              (snd (add_user WriteOk "Bo" "bo@x.com" (fresh (PList [to_dict ann])))))
    as (n & Hid & Hget).
  - split; [reflexivity|]. repeat constructor.
  - vm_compute. reflexivity.
  - exists n. split; [exact Hid|]. by rewrite Hget.
Defined.

(** Bo's add could not be saved; the second try, with a disk that works,
    is turned down as a duplicate. *)
Lemma added_email_is_taken_witness :
  let s1 := snd (add_user OpenFails "Bo" "bo@x.com" (fresh (PList [to_dict ann]))) in
  add_user WriteOk "Bo" "bo@x.com" s1 = (Ok None, s1).
Proof.
  apply (added_email_is_taken (J := document_json) OpenFails WriteOk "Bo" "Bo" "bo@x.com"
           (fresh (PList [to_dict ann]))).
  vm_compute. discriminate.
Defined.

(** Bo deleted from the store of Ann and Bo: [get_user 2] shows him
    inactive and the active-only listing is Ann alone. *)
Lemma delete_then_reads_witness :
  let s' := snd (delete_user WriteOk 2 (fresh (PList [to_dict ann; to_dict bo]))) in
  get_user 2 s' = (Ok (Some bo_deleted), s') ∧
  list_users true s' = (Ok (PList [to_dict ann]), s').
Proof.
  destruct (delete_then_reads (J := document_json) WriteOk 2
              (mkUserManager "users.json" (PList [to_dict ann; to_dict bo])) ∅
              [to_dict ann; to_dict bo] 1 (to_dict bo)) as (Hget & Hlist & _).
  - split; [reflexivity|]. repeat constructor.
  - reflexivity.
  - reflexivity.
  - intros [|[|j]] r' Hj Hr'; [|lia|lia].
    injection Hr' as <-. vm_compute. discriminate.
  - split; [exact Hget | exact Hlist].
Defined.

(** [users.json] holds Ann; Bo is added while the file cannot be opened:
    he is in memory, and a manager constructed again sees Ann alone. *)
Lemma unsaved_add_lost_on_restart_witness :
  let s' := snd (add_user OpenFails "Bo" "bo@x.com"
                   (mkUserManager "users.json" (PList [to_dict ann]),
                    only_file (Parses (PList [to_dict ann])))) in
  users (fst s') = PList [to_dict ann; to_dict bo] ∧
  __init__ (snd s') "users.json" = Ok (mkUserManager "users.json" (PList [to_dict ann])).
Proof.
  apply (unsaved_add_lost_on_restart (J := document_json) "Bo" "bo@x.com"
           (mkUserManager "users.json" (PList [to_dict ann]))
           (only_file (Parses (PList [to_dict ann]))) [to_dict ann]).
  - reflexivity.
  - split; [reflexivity|]. repeat constructor.
  - discriminate.
  - discriminate.
  - reflexivity.
  - constructor; [vm_compute; discriminate | constructor].
Defined.

(** The session of C8 on the store of Ann and the deleted Bo: both are
    still at their places, whatever came after them. *)
Lemma records_only_deactivated_witness :
  ∃ l', users (fst (run session (fresh (PList [to_dict ann; bo_deleted])))) = PList l' ∧
        continues [to_dict ann; bo_deleted] l'.
Proof.
  apply (records_only_deactivated (J := document_json)). reflexivity.
Defined.

(** A file that held an object with the list under a key: every method
    gives up. *)
Lemma non_list_store_inert_witness :
  add_user WriteOk "Ann" "ann@x.com" (fresh wrapped) = (Ok None, fresh wrapped) ∧
  list_users true (fresh wrapped) = (Ok (PList []), fresh wrapped) ∧
  get_user 1 (fresh wrapped) = (Ok None, fresh wrapped) ∧
  delete_user WriteOk 1 (fresh wrapped) = (Ok false, fresh wrapped).
Proof.
  apply (non_list_store_inert (J := document_json) WriteOk "Ann" "ann@x.com" 1
           (mkUserManager "users.json" wrapped) ∅).
  intros l. discriminate.
Defined.

(** The end-to-end scenario of the specification: Ann gets id 1, Bo gets
    id 2, deleting 1 returns [True], Ann's record is then inactive, and the
    active-only listing is Bo's record alone. *)
Example spec_scenario :
  let s0 := fresh (PList []) in
  let a1 := add_user WriteOk "Ann" "ann@x.com" s0 in
  let a2 := add_user WriteOk "Bo" "bo@x.com" (snd a1) in
  let d1 := delete_user WriteOk 1 (snd a2) in
  fst a1 = Ok (Some ann) ∧ fst a2 = Ok (Some bo) ∧ fst d1 = Ok true ∧
  fst (get_user 1 (snd d1)) = Ok (Some (deactivated (to_dict ann))) ∧
  fst (list_users true (snd d1)) = Ok (PList [to_dict bo]).
Proof. vm_compute. repeat split; reflexivity. Qed.
